(** * parse-tree: the expression pipeline of [src/App.tsx]

    A shallow embedding of the normalizer ([preprocessExpression]), the tree
    converter ([convertToTree]) and the entry point ([parseExpression],
    [handleSubmit]) of [src/App.tsx], with the properties of the
    specification stated and proved over it.

    JavaScript strings are sequences of UTF-16 code units; a code unit is a
    number [N].  The expression parser ([parse] of mathjs) is an external
    collaborator and is a parameter of the entry point. *)

From Stdlib Require Import List String Ascii NArith ZArith Bool Lia.
From Stdlib Require Import DecimalString Wf_nat.
Import ListNotations.

(** ** JavaScript strings *)

Module JS.

Definition char := N.
Definition jsstring := list char.

(** An ASCII literal of the source text as a JavaScript string. *)
Definition lit (s : string) : jsstring :=
  map N_of_ascii (list_ascii_of_string s).

Definition chr (a : ascii) : char := N_of_ascii a.

Definition isChar (a : ascii) (c : char) : bool := N.eqb c (chr a).

(** U+2013 EN DASH, the character class of [/(–)/g]. *)
Definition enDash : char := 8211%N.

(** [\d]: the ASCII digits 0-9. *)
Definition isDigit (c : char) : bool :=
  (N.leb 48 c && N.leb c 57)%N.

(** [\s] of a regular expression, and the StrWhiteSpaceChar that
    StringToNumber trims: WhiteSpace and LineTerminator of ECMAScript. *)
Definition isWhiteSpace (c : char) : bool :=
  (N.leb 9 c && N.leb c 13)        (* TAB LF VT FF CR *)
  || N.eqb c 32 || N.eqb c 160     (* SP NBSP *)
  || N.eqb c 5760                  (* U+1680 *)
  || (N.leb 8192 c && N.leb c 8202) (* U+2000 .. U+200A *)
  || N.eqb c 8232 || N.eqb c 8233  (* LS PS *)
  || N.eqb c 8239 || N.eqb c 8287  (* U+202F U+205F *)
  || N.eqb c 12288 || N.eqb c 65279. (* U+3000 U+FEFF *)

Fixpoint eqb (s t : jsstring) : bool :=
  match s, t with
  | [], [] => true
  | c :: s', d :: t' => N.eqb c d && eqb s' t'
  | _, _ => false
  end.

(** The longest prefix whose characters satisfy [p], and the rest. *)
Fixpoint span (p : char -> bool) (s : jsstring) : jsstring * jsstring :=
  match s with
  | c :: s' =>
      if p c then let (a, r) := span p s' in (c :: a, r) else ([], s)
  | [] => ([], [])
  end.

Definition dropWhile (p : char -> bool) (s : jsstring) : jsstring :=
  snd (span p s).

(** *** [isNaN(+s)] for a string [s]

    Unary plus applies StringToNumber: the string is trimmed of white space;
    the empty string is 0; otherwise the text must be a StrNumericLiteral
    (a signed decimal literal, [Infinity], or an unsigned hexadecimal, octal
    or binary integer literal), and anything else is NaN.  A literal never
    denotes NaN, so [isNaN(+s)] holds exactly when [s] is not of that
    form. *)

Definition trim (s : jsstring) : jsstring :=
  rev (dropWhile isWhiteSpace (rev (dropWhile isWhiteSpace s))).

Definition nonEmpty (s : jsstring) : bool :=
  match s with [] => false | _ :: _ => true end.

Definition isHexDigit (c : char) : bool :=
  isDigit c || (N.leb 65 c && N.leb c 70) || (N.leb 97 c && N.leb c 102).

Definition isOctalDigit (c : char) : bool := N.leb 48 c && N.leb c 55.

Definition isBinaryDigit (c : char) : bool := N.leb 48 c && N.leb c 49.

Definition isSign (c : char) : bool := isChar "+" c || isChar "-" c.

(** ExponentPart, or nothing, up to the end of the string. *)
Definition exponentPartOpt (s : jsstring) : bool :=
  match s with
  | [] => true
  | e :: s' =>
      (isChar "e" e || isChar "E" e)
      && let ds := match s' with
                   | c :: t => if isSign c then t else s'
                   | [] => s'
                   end in
         nonEmpty ds && forallb isDigit ds
  end.

Definition strUnsignedDecimalLiteral (s : jsstring) : bool :=
  if eqb s (lit "Infinity") then true
  else
    let (intPart, r) := span isDigit s in
    match r with
    | c :: r' =>
        if isChar "." c then
          let (fracPart, r'') := span isDigit r' in
          (nonEmpty intPart || nonEmpty fracPart) && exponentPartOpt r''
        else nonEmpty intPart && exponentPartOpt r
    | [] => nonEmpty intPart
    end.

Definition strDecimalLiteral (s : jsstring) : bool :=
  match s with
  | c :: s' =>
      if isSign c then strUnsignedDecimalLiteral s'
      else strUnsignedDecimalLiteral s
  | [] => false
  end.

Definition nonDecimalIntegerLiteral (s : jsstring) : bool :=
  match s with
  | z :: x :: ds =>
      isChar "0" z && nonEmpty ds
      && (((isChar "x" x || isChar "X" x) && forallb isHexDigit ds)
          || ((isChar "o" x || isChar "O" x) && forallb isOctalDigit ds)
          || ((isChar "b" x || isChar "B" x) && forallb isBinaryDigit ds))
  | _ => false
  end.

Definition isNaNOfString (s : jsstring) : bool :=
  match trim s with
  | [] => false
  | t => negb (strDecimalLiteral t || nonDecimalIntegerLiteral t)
  end.

(** *** What JavaScript code throws *)

Inductive Thrown : Type :=
| Error (message : jsstring)        (* [throw new Error(message)] *)
| TypeError                         (* a property read on [undefined] or [null] *)
| SyntaxError (message : jsstring). (* what [parse] throws *)

Inductive Result (A : Type) : Type :=
| Return (a : A)
| Throw (e : Thrown).

Arguments Return {A} a.
Arguments Throw {A} e.

Definition bind {A B : Type} (m : Result A) (k : A -> Result B) : Result B :=
  match m with
  | Return a => k a
  | Throw e => Throw e
  end.

End JS.

Import JS.

Notation "x <- m ;; k" := (bind m (fun x => k))
  (at level 61, m at next level, right associativity).

(** ** Regular expressions

    The fragment of RegExp that the source uses: a character class, a
    greedy [*] or [+] of a character class, a sequence and a capturing
    group.  [exec] lists the matches of a pattern at the start of a string
    in the order a backtracking matcher tries them, so the head of the
    list is the match that [RegExp.prototype.exec] reports. *)

Module RegExp.

Inductive regex : Type :=
| Class (p : char -> bool)
| Star (p : char -> bool)
| Plus (p : char -> bool)
| Seq (r1 r2 : regex)
| Group (r : regex).

Record Match : Type := mkMatch {
  matched : jsstring;
  captures : list jsstring;
  rest : jsstring
}.

Definition consumed (c : char) (m : Match) : Match :=
  mkMatch (c :: matched m) (captures m) (rest m).

Fixpoint star (p : char -> bool) (s : jsstring) : list Match :=
  match s with
  | c :: s' =>
      if p c then map (consumed c) (star p s') ++ [mkMatch [] [] s]
      else [mkMatch [] [] s]
  | [] => [mkMatch [] [] []]
  end.

Definition class (p : char -> bool) (s : jsstring) : list Match :=
  match s with
  | c :: s' => if p c then [mkMatch [c] [] s'] else []
  | [] => []
  end.

Definition andThen (m1 : Match) (m2 : Match) : Match :=
  mkMatch (matched m1 ++ matched m2) (captures m1 ++ captures m2) (rest m2).

Definition capture (m : Match) : Match :=
  mkMatch (matched m) (matched m :: captures m) (rest m).

Fixpoint exec (r : regex) (s : jsstring) : list Match :=
  match r with
  | Class p => class p s
  | Star p => star p s
  | Plus p =>
      flat_map (fun m1 => map (andThen m1) (star p (rest m1))) (class p s)
  | Seq r1 r2 =>
      flat_map (fun m1 => map (andThen m1) (exec r2 (rest m1))) (exec r1 s)
  | Group r' => map capture (exec r' s)
  end.

(** A replacement string: literal text and [$n] references. *)
Inductive piece : Type :=
| Text (t : jsstring)
| Ref (n : nat).

Definition substitute (tpl : list piece) (m : Match) : jsstring :=
  flat_map (fun p =>
              match p with
              | Text t => t
              | Ref n => nth (pred n) (captures m) []
              end) tpl.

(** [String.prototype.replace] with a global pattern: scan left to right,
    at each position take the first match of the pattern there; a match is
    replaced and the scan resumes behind it, otherwise the character is
    kept.  [skip] counts the characters of the last match that are still to
    be passed over; an empty match consumes nothing and the scan moves on
    by one character. *)
Fixpoint replaceFrom (r : regex) (tpl : list piece) (skip : nat)
         (s : jsstring) : jsstring :=
  match s with
  | [] =>
      match skip, exec r [] with
      | O, m :: _ => substitute tpl m
      | _, _ => []
      end
  | c :: s' =>
      match skip with
      | S k => replaceFrom r tpl k s'
      | O =>
          match exec r s with
          | m :: _ =>
              match List.length (matched m) with
              | O => substitute tpl m ++ c :: replaceFrom r tpl 0 s'
              | S k => substitute tpl m ++ replaceFrom r tpl k s'
              end
          | [] => c :: replaceFrom r tpl 0 s'
          end
      end
  end.

Definition replace (r : regex) (tpl : list piece) (s : jsstring) : jsstring :=
  replaceFrom r tpl 0 s.

End RegExp.

Import RegExp.

(** ** The normalizer: [preprocessExpression] (App.tsx, lines 74-83) *)

(** [/(\d+)(\s*\()/g] *)
Definition digitsBeforeParen : regex :=
  Seq (Group (Plus isDigit))
      (Group (Seq (Star isWhiteSpace) (Class (isChar "(")))).

(** [/(\))(\s*\d+)/g] *)
Definition digitsAfterParen : regex :=
  Seq (Group (Class (isChar ")")))
      (Group (Seq (Star isWhiteSpace) (Plus isDigit))).

(** ['$1 * $2'] *)
Definition timesBetween : list piece := [Ref 1; Text (lit " * "); Ref 2].

Definition preprocessExpression (expr : jsstring) : jsstring :=
  let s := replace (Class (isChar "{")) [Text (lit "(")] expr in
  let s := replace (Class (isChar "[")) [Text (lit "(")] s in
  let s := replace (Class (isChar "}")) [Text (lit ")")] s in
  let s := replace (Class (isChar "]")) [Text (lit ")")] s in
  let s := replace digitsBeforeParen timesBetween s in
  let s := replace digitsAfterParen timesBetween s in
  replace (Group (Class (N.eqb enDash))) [Text (lit "-")] s.

(** ** The data model (App.tsx, lines 10-19) *)

#[local] Unset Elimination Schemes.

(** [interface TreeNode]: an absent field and a field holding [undefined]
    are both [None].  [convertToTree] always writes [isSubExpression]. *)
Inductive TreeNode : Type :=
  mkTreeNode {
    value : jsstring;
    left : option TreeNode;
    right : option TreeNode;
    isSubExpression : bool
  }.

(** What a value offers to [constantNode.value.toString()]: the call
    returns a string, or there is no method to call ([null] and
    [undefined]) and the call throws a TypeError. *)
Class ToString (V : Type) : Type :=
  toString : V -> option jsstring.

(** The node kinds of mathjs that [convertToTree] has no case for. *)
Inductive OtherKind : Type :=
| AccessorNode | ArrayNode | AssignmentNode | BlockNode | ConditionalNode
| FunctionAssignmentNode | FunctionNode | IndexNode | ObjectNode
| RangeNode | RelationalNode | SymbolNode.

Definition kindName (k : OtherKind) : jsstring :=
  lit match k with
      | AccessorNode => "AccessorNode"
      | ArrayNode => "ArrayNode"
      | AssignmentNode => "AssignmentNode"
      | BlockNode => "BlockNode"
      | ConditionalNode => "ConditionalNode"
      | FunctionAssignmentNode => "FunctionAssignmentNode"
      | FunctionNode => "FunctionNode"
      | IndexNode => "IndexNode"
      | ObjectNode => "ObjectNode"
      | RangeNode => "RangeNode"
      | RelationalNode => "RelationalNode"
      | SymbolNode => "SymbolNode"
      end.

(** [MathNode] of mathjs, as [convertToTree] reads it: the operator symbol
    and the operands of an [OperatorNode] ([args] is tested before it is
    indexed, so it may be absent), the value of a [ConstantNode], the
    optional [content] that [ExtendedMathNode] declares for a
    [ParenthesisNode], and any other kind. *)
Inductive MathNode (V : Type) : Type :=
| OperatorNode (op : jsstring) (args : option (list (MathNode V)))
| ConstantNode (v : V)
| ParenthesisNode (content : option (MathNode V))
| OtherNode (kind : OtherKind).

#[local] Set Elimination Schemes.

Arguments OperatorNode {V} op args.
Arguments ConstantNode {V} v.
Arguments ParenthesisNode {V} content.
Arguments OtherNode {V} kind.

(** Induction over a node graph: the operands of an operator node and the
    content of a grouping node satisfy the property. *)
Section MathNode_induction.

Context {V : Type}.
Variable P : MathNode V -> Prop.
Hypothesis P_operator_none : forall op, P (OperatorNode op None).
Hypothesis P_operator :
  forall op args, Forall P args -> P (OperatorNode op (Some args)).
Hypothesis P_constant : forall v, P (ConstantNode v).
Hypothesis P_parenthesis_none : P (ParenthesisNode None).
Hypothesis P_parenthesis : forall c, P c -> P (ParenthesisNode (Some c)).
Hypothesis P_other : forall k, P (OtherNode k).

Fixpoint MathNode_ind (n : MathNode V) : P n :=
  match n with
  | OperatorNode op None => P_operator_none op
  | OperatorNode op (Some args) =>
      P_operator op args
        ((fix all (l : list (MathNode V)) : Forall P l :=
            match l with
            | [] => Forall_nil P
            | x :: l' => Forall_cons x (MathNode_ind x) (all l')
            end) args)
  | ConstantNode v => P_constant v
  | ParenthesisNode None => P_parenthesis_none
  | ParenthesisNode (Some c) => P_parenthesis c (MathNode_ind c)
  | OtherNode k => P_other k
  end.

End MathNode_induction.

(** [node.type] *)
Definition type {V : Type} (node : MathNode V) : jsstring :=
  match node with
  | OperatorNode _ _ => lit "OperatorNode"
  | ConstantNode _ => lit "ConstantNode"
  | ParenthesisNode _ => lit "ParenthesisNode"
  | OtherNode k => kindName k
  end.

(** ** The tree converter: [convertToTree] (App.tsx, lines 47-72)

    [args[i]] beyond the end of the array is [undefined], and so is an
    absent [content]; [convertToTree(undefined, ...)] throws a TypeError
    when it reads [node.type].  The fields of the object literal are
    evaluated in order: [left] before [right]. *)

Section Converter.

Context {V : Type} `{ToString V}.

Fixpoint convertToTree (node : MathNode V) (isSubExpression : bool)
  : Result TreeNode :=
  match node with
  | OperatorNode op args =>
      l <- match args with
           | Some (a0 :: _) =>
               t <- convertToTree a0 isSubExpression ;; Return (Some t)
           | Some [] => Throw TypeError
           | None => Return None
           end ;;
      r <- match args with
           | Some (_ :: a1 :: _) =>
               t <- convertToTree a1 isSubExpression ;; Return (Some t)
           | Some _ => Throw TypeError
           | None => Return None
           end ;;
      Return (mkTreeNode op l r isSubExpression)
  | ConstantNode v =>
      match toString v with
      | Some s => Return (mkTreeNode s None None isSubExpression)
      | None => Throw TypeError
      end
  | ParenthesisNode content =>
      match content with
      | Some c => convertToTree c true
      | None => Throw TypeError
      end
  | OtherNode _ =>
      Throw (Error (lit "Unsupported node type: " ++ type node))
  end.

End Converter.

(** ** The entry point: [parseExpression] and [handleSubmit]
    (App.tsx, lines 31-39 and 86-91)

    [parse] is the expression parser of mathjs: it returns a node or throws.
    [console.error] is modelled by the list of entries written. *)

Inductive LogEntry : Type :=
| ConsoleError (label : jsstring) (error : Thrown).

Record AppState : Type := mkAppState {
  expression : jsstring;
  tree : option TreeNode
}.

Section EntryPoint.

Context {V : Type} `{ToString V}.
Variable parse : jsstring -> Result (MathNode V).

Definition parseExpression (expression : jsstring)
  : option TreeNode * list LogEntry :=
  match (node <- parse expression ;; convertToTree node false) with
  | Return t => (Some t, [])
  | Throw error => (None, [ConsoleError (lit "Invalid expression:") error])
  end.

Definition handleSubmit (st : AppState) : AppState * list LogEntry :=
  let processedExpression := preprocessExpression (expression st) in
  let (treeData, log) := parseExpression processedExpression in
  (mkAppState (expression st) treeData, log).

End EntryPoint.

(** ** The test of [drawTree] (App.tsx, line 147)

    [isNaN(+d.data.value)]: the value of the node does not parse as a
    number. *)

Definition isOperatorValue (t : TreeNode) : bool := isNaNOfString (value t).

(** ** Observations on trees and node graphs *)

(** The nodes of a tree, root first. *)
Fixpoint nodes (t : TreeNode) : list TreeNode :=
  t :: match left t with Some l => nodes l | None => [] end
    ++ match right t with Some r => nodes r | None => [] end.

Definition isSome {A : Type} (o : option A) : bool :=
  match o with Some _ => true | None => false end.

(** The binary-only shape of one node: an operator value with both
    children, or a numeric value with none. *)
Definition binaryOnly (t : TreeNode) : bool :=
  if isOperatorValue t then isSome (left t) && isSome (right t)
  else negb (isSome (left t)) && negb (isSome (right t)).

(** No node has exactly one child. *)
Definition bothOrNeither (t : TreeNode) : bool :=
  Bool.eqb (isSome (left t)) (isSome (right t)).

(** Below a node whose flag is set, every flag is set. *)
Definition flagDownward (t : TreeNode) : bool :=
  if isSubExpression t then forallb isSubExpression (nodes t) else true.

(** What [convertToTree] is applied to, in the order of the calls: a node,
    or [undefined]. *)
Inductive Visited (V : Type) : Type :=
| VNode (n : MathNode V)
| VUndefined.

Arguments VNode {V} n.
Arguments VUndefined {V}.

Section Visits.

Context {V : Type} `{ToString V}.

Fixpoint visits (node : MathNode V) : list (Visited V) :=
  VNode node ::
  match node with
  | OperatorNode _ (Some args) =>
      match args with
      | a0 :: _ => visits a0
      | [] => [VUndefined]
      end ++
      match args with
      | _ :: a1 :: _ => visits a1
      | _ => [VUndefined]
      end
  | OperatorNode _ None => []
  | ConstantNode _ => []
  | ParenthesisNode (Some c) => visits c
  | ParenthesisNode None => [VUndefined]
  | OtherNode _ => []
  end.

(** What a single call throws by itself, if anything: apart from the
    calls it makes. *)
Definition throwsAt (v : Visited V) : option Thrown :=
  match v with
  | VUndefined => Some TypeError
  | VNode (OtherNode k) =>
      Some (Error (lit "Unsupported node type: " ++ kindName k))
  | VNode (ConstantNode c) =>
      match toString c with None => Some TypeError | Some _ => None end
  | VNode _ => None
  end.

(** The first call that throws by itself. *)
Definition firstFailure (vs : list (Visited V)) : option (Visited V) :=
  find (fun v => isSome (throwsAt v)) vs.

(** The visited nodes that yield a TreeNode of their own. *)
Definition yieldsNode (v : Visited V) : bool :=
  match v with
  | VNode (OperatorNode _ _) | VNode (ConstantNode _) => true
  | _ => false
  end.

(** The conditions under which the value of a produced node tells an
    operator from a constant: the operands array is there, the operator
    symbol does not parse as a number, the constant's text does. *)
Definition wellFormedAt (v : Visited V) : bool :=
  match v with
  | VNode (OperatorNode op args) => isSome args && isNaNOfString op
  | VNode (ConstantNode c) =>
      match toString c with
      | Some s => negb (isNaNOfString s)
      | None => true
      end
  | _ => true
  end.

End Visits.

(** ** Concrete values and a reference parser

    The values a [ConstantNode] of mathjs holds after [parse]: a number (of
    which the integers of magnitude up to 2^53, NaN and the infinities are
    represented here), a boolean, a string, [null] or [undefined]. *)

Inductive JSValue : Type :=
| NumberInt (z : Z)
| NumberNaN
| NumberInfinity (negative : bool)
| Boolean (b : bool)
| StringValue (s : jsstring)
| Null
| Undefined.

#[export] Instance JSValue_toString : ToString JSValue :=
  fun v =>
    match v with
    | NumberInt z => Some (lit (NilZero.string_of_int (Z.to_int z)))
    | NumberNaN => Some (lit "NaN")
    | NumberInfinity negative =>
        Some (lit (if negative then "-Infinity" else "Infinity"))
    | Boolean b => Some (lit (if b then "true" else "false"))
    | StringValue s => Some s
    | Null | Undefined => None
    end.

Module Reference.

Inductive token : Type :=
| TNumber (n : N)
| TSymbol (c : char).

Definition isSymbol (c : char) : bool :=
  existsb (N.eqb c) (lit "+-*/^()").

Definition flush (acc : option N) : list token :=
  match acc with Some n => [TNumber n] | None => [] end.

Fixpoint tokenize (acc : option N) (s : jsstring) : Result (list token) :=
  match s with
  | [] => Return (flush acc)
  | c :: s' =>
      if isDigit c then
        tokenize (Some (10 * match acc with Some n => n | None => 0 end
                        + (c - 48))%N) s'
      else if isWhiteSpace c then
        ts <- tokenize None s' ;; Return (flush acc ++ ts)
      else if isSymbol c then
        ts <- tokenize None s' ;; Return (flush acc ++ TSymbol c :: ts)
      else Throw (SyntaxError (lit "Unexpected character"))
  end.

Inductive goal : Type :=
| AddSubtract
| AddSubtractRest (lhs : MathNode JSValue)
| MultiplyDivide
| MultiplyDivideRest (lhs : MathNode JSValue)
| Unary
| Pow
| Parentheses.

Definition binary (c : char) (a b : MathNode JSValue) : MathNode JSValue :=
  OperatorNode [c] (Some [a; b]).

Definition unexpected {A : Type} : Result A :=
  Throw (SyntaxError (lit "Value expected")).

Fixpoint parseGoal (fuel : nat) (g : goal) (ts : list token)
  : Result (MathNode JSValue * list token) :=
  match fuel with
  | O => unexpected
  | S fuel =>
      match g with
      | AddSubtract =>
          p <- parseGoal fuel MultiplyDivide ts ;;
          parseGoal fuel (AddSubtractRest (fst p)) (snd p)
      | AddSubtractRest lhs =>
          match ts with
          | TSymbol c :: ts' =>
              if isChar "+" c || isChar "-" c then
                p <- parseGoal fuel MultiplyDivide ts' ;;
                parseGoal fuel (AddSubtractRest (binary c lhs (fst p))) (snd p)
              else Return (lhs, ts)
          | _ => Return (lhs, ts)
          end
      | MultiplyDivide =>
          p <- parseGoal fuel Unary ts ;;
          parseGoal fuel (MultiplyDivideRest (fst p)) (snd p)
      | MultiplyDivideRest lhs =>
          match ts with
          | TSymbol c :: ts' =>
              if isChar "*" c || isChar "/" c then
                p <- parseGoal fuel Unary ts' ;;
                parseGoal fuel (MultiplyDivideRest (binary c lhs (fst p)))
                          (snd p)
              else Return (lhs, ts)
          | _ => Return (lhs, ts)
          end
      | Unary =>
          match ts with
          | TSymbol c :: ts' =>
              if isChar "+" c || isChar "-" c then
                p <- parseGoal fuel Unary ts' ;;
                Return (OperatorNode [c] (Some [fst p]), snd p)
              else parseGoal fuel Pow ts
          | _ => parseGoal fuel Pow ts
          end
      | Pow =>
          p <- parseGoal fuel Parentheses ts ;;
          match snd p with
          | TSymbol c :: ts' =>
              if isChar "^" c then
                q <- parseGoal fuel Unary ts' ;;
                Return (binary c (fst p) (fst q), snd q)
              else Return p
          | _ => Return p
          end
      | Parentheses =>
          match ts with
          | TNumber n :: ts' => Return (ConstantNode (NumberInt (Z.of_N n)), ts')
          | TSymbol c :: ts' =>
              if isChar "(" c then
                p <- parseGoal fuel AddSubtract ts' ;;
                match snd p with
                | TSymbol d :: ts'' =>
                    if isChar ")" d
                    then Return (ParenthesisNode (Some (fst p)), ts'')
                    else Throw (SyntaxError (lit "Parenthesis ) expected"))
                | _ => Throw (SyntaxError (lit "Parenthesis ) expected"))
                end
              else unexpected
          | [] => unexpected
          end
      end
  end.

(** Modelled from the spec: the external expression parser (section 4.2),
    for integer numerals, [+ - * / ^], signs and parentheses, with the
    precedence [^] over [* /] over [+ -], [^] associating to the right and
    the others to the left; a parenthesized expression is a grouping node
    and a sign applied to an operand is an operator node with that one
    operand.  Malformed input throws. *)
Definition parse (s : jsstring) : Result (MathNode JSValue) :=
  ts <- tokenize None s ;;
  p <- parseGoal (8 * List.length ts + 8) AddSubtract ts ;;
  match snd p with
  | [] => Return (fst p)
  | _ :: _ => Throw (SyntaxError (lit "Unexpected operator"))
  end.

End Reference.


(** ** Vocabulary of the properties *)

(** The Prop reading of [binaryOnly]. *)
Definition BinaryOnly (t : TreeNode) : Prop :=
  (isOperatorValue t = true /\ left t <> None /\ right t <> None)
  \/ (isOperatorValue t = false /\ left t = None /\ right t = None).

(** No character of the string is an ASCII digit. *)
Definition noDigit (s : jsstring) : Prop :=
  forallb (fun c => negb (isDigit c)) s = true.

(** Rule 3 read directly: the longest digit run, the longest run of
    white space behind it, and an opening parenthesis. *)
Definition scanDigitsBeforeParen (s : jsstring) : option Match :=
  let (ds, r) := span isDigit s in
  let (ws, r') := span isWhiteSpace r in
  match ds, r' with
  | _ :: _, c :: r'' =>
      if isChar "(" c
      then Some (mkMatch (ds ++ ws ++ [c]) [ds; ws ++ [c]] r'')
      else None
  | _, _ => None
  end.

(** The six grouping characters, and what rules 1 and 2 make of them. *)
Definition isBracket (c : char) : bool := existsb (N.eqb c) (lit "(){}[]").

Definition normalizeBracket (c : char) : char :=
  if isChar "{" c || isChar "[" c then chr "("
  else if isChar "}" c || isChar "]" c then chr ")"
  else c.

Definition leaf (s : string) (flag : bool) : TreeNode :=
  mkTreeNode (lit s) None None flag.

Definition number (z : Z) : MathNode JSValue := ConstantNode (NumberInt z).

(** The node graph of [2 * (3+4)] and its tree. *)
Definition scenario2Node : MathNode JSValue :=
  OperatorNode (lit "*")
    (Some [number 2;
           ParenthesisNode
             (Some (OperatorNode (lit "+") (Some [number 3; number 4])))]).

Definition scenario2Tree : TreeNode :=
  mkTreeNode (lit "*")
    (Some (leaf "2" false))
    (Some (mkTreeNode (lit "+")
             (Some (leaf "3" true)) (Some (leaf "4" true)) true))
    false.

(** The error of the [default] case for a node of kind [k]. *)
Definition UnsupportedNodeError (k : OtherKind) : Thrown :=
  Error (lit "Unsupported node type: " ++ kindName k).


(** ** Vocabulary of the further properties *)

(** Rule 4 read directly: a closing parenthesis, the longest run of white
    space behind it, and the longest digit run. *)
Definition scanDigitsAfterParen (s : jsstring) : option Match :=
  match s with
  | c :: s' =>
      if isChar ")" c then
        let (ws, r) := span isWhiteSpace s' in
        let (ds, r') := span isDigit r in
        match ds with
        | _ :: _ => Some (mkMatch (c :: ws ++ ds) [[c]; ws ++ ds] r')
        | [] => None
        end
      else None
  | [] => None
  end.

(** Behind optional white space the text goes on with an opening
    parenthesis, or with a digit. *)
Definition parenAhead (s : jsstring) : bool :=
  match dropWhile isWhiteSpace s with
  | c :: _ => isChar "(" c
  | [] => false
  end.

Definition digitAhead (s : jsstring) : bool :=
  match dropWhile isWhiteSpace s with
  | c :: _ => isDigit c
  | [] => false
  end.

(** No digit stands before an opening parenthesis, and no closing
    parenthesis before a digit, white space between them or not. *)
Fixpoint noDigitBeforeParen (s : jsstring) : bool :=
  match s with
  | [] => true
  | c :: s' => negb (isDigit c && parenAhead s') && noDigitBeforeParen s'
  end.

Fixpoint noDigitAfterParen (s : jsstring) : bool :=
  match s with
  | [] => true
  | c :: s' => negb (isChar ")" c && digitAhead s') && noDigitAfterParen s'
  end.

(** What rules 1, 2 and 5 make of one character. *)
Definition normalizeChar (c : char) : char :=
  if N.eqb enDash c then chr "-" else normalizeBracket c.

(** Neither a curly or square bracket nor an en dash. *)
Definition isPlain (c : char) : bool :=
  negb (isChar "{" c || isChar "[" c || isChar "}" c || isChar "]" c
        || N.eqb enDash c).

(** A text in normal form: plain characters, and the operator written
    wherever a numeral meets a parenthesis. *)
Definition isNormal (s : jsstring) : bool :=
  forallb isPlain s && noDigitBeforeParen s && noDigitAfterParen s.

(** A tree with every flag cleared: its values and its shape. *)
Fixpoint eraseFlags (t : TreeNode) : TreeNode :=
  mkTreeNode (value t)
             match left t with Some l => Some (eraseFlags l) | None => None end
             match right t with Some r => Some (eraseFlags r) | None => None end
             false.

Definition mapResult {A B : Type} (f : A -> B) (r : Result A) : Result B :=
  match r with
  | Return a => Return (f a)
  | Throw e => Throw e
  end.

(** The accessor that [drawTree] hands to [d3.hierarchy] (App.tsx, lines
    117-119): [[d.left, d.right].filter(child => child !== undefined)]. *)
Definition childrenOf (d : TreeNode) : list TreeNode :=
  flat_map (fun child => match child with Some c => [c] | None => [] end)
           [left d; right d].

Definition hasChildren (d : TreeNode) : bool :=
  match childrenOf d with [] => false | _ :: _ => true end.

Section VisitLabels.

Context {V : Type} `{ToString V}.

(** The text a visited node gives to its tree node. *)
Definition labelOf (v : Visited V) : option jsstring :=
  match v with
  | VNode (OperatorNode op _) => Some op
  | VNode (ConstantNode c) => toString c
  | _ => None
  end.

Definition labels (vs : list (Visited V)) : list jsstring :=
  flat_map (fun v => match labelOf v with Some s => [s] | None => [] end) vs.

Definition isGrouping (v : Visited V) : bool :=
  match v with
  | VNode (ParenthesisNode _) => true
  | _ => false
  end.

End VisitLabels.

(** [t] is [s] with characters of the class [q] written into it. *)
Inductive insertedInto (q : char -> bool) : jsstring -> jsstring -> Prop :=
| inserted_nil : insertedInto q [] []
| inserted_keep (c : char) (s t : jsstring) :
    insertedInto q s t -> insertedInto q (c :: s) (c :: t)
| inserted_new (c : char) (s t : jsstring) :
    q c = true -> insertedInto q s t -> insertedInto q s (c :: t).

Definition isSpaceOrTimes (c : char) : bool := isChar " " c || isChar "*" c.

(** ** The page: the form and the effect (App.tsx, lines 86-99 and 179)

    [render] is what [drawTree] builds from the tree data with d3: the
    [svg] element it appends to the container.  The container is the
    list of its child elements, absent while [containerRef.current] is
    [null]. *)

Section Page.

Context {V : Type} `{ToString V}.
Context {Svg : Type}.
Variable parse : jsstring -> Result (MathNode V).
Variable render : TreeNode -> Svg.

Record Page : Type := mkPage {
  state : AppState;
  container : option (list Svg)
}.

(** [onChange={(e) => setExpression(e.target.value)}] *)
Definition setExpression (text : jsstring) (st : AppState) : AppState :=
  mkAppState text (tree st).

(** [drawTree]: [d3.select(containerRef.current).append('svg')...] *)
Definition drawTree (children : list Svg) (treeData : TreeNode) : list Svg :=
  children ++ [render treeData].

(** The effect on [tree]: with a tree and a container, the container is
    emptied and the tree drawn; otherwise nothing is touched. *)
Definition treeEffect (tree : option TreeNode)
           (container : option (list Svg)) : option (list Svg) :=
  match tree, container with
  | Some t, Some _ => Some (drawTree [] t)
  | _, _ => container
  end.

(** A submission and the render that follows it.  React runs the effect
    when [tree] has changed; a tree from [convertToTree] is a new object
    each time, and for [null] the effect does nothing, run or not. *)
Definition submitAndRender (p : Page) : Page * list LogEntry :=
  let (st, log) := handleSubmit parse (state p) in
  (mkPage st (treeEffect (tree st) (container p)), log).

(** The user types a text and submits it, one text after the other. *)
Fixpoint session (p : Page) (texts : list jsstring) : Page :=
  match texts with
  | [] => p
  | text :: texts' =>
      session (fst (submitAndRender
                      (mkPage (setExpression text (state p)) (container p))))
              texts'
  end.

(** The tree of the last text that yields one, and of the last text. *)
Definition lastTree (texts : list jsstring) : option TreeNode :=
  fold_left (fun acc text =>
               match fst (parseExpression parse (preprocessExpression text))
               with
               | Some t => Some t
               | None => acc
               end) texts None.

End Page.

(** * Properties *)

(** ** The tree converter *)

Section ConverterFacts.

Context {V : Type} `{ToString V}.

Lemma convert_operator_inv (op : jsstring) (args : list (MathNode V))
      (flag : bool) (t : TreeNode) :
  convertToTree (OperatorNode op (Some args)) flag = Return t ->
  exists a0 a1 others l r,
    args = a0 :: a1 :: others
    /\ convertToTree a0 flag = Return l
    /\ convertToTree a1 flag = Return r
    /\ t = mkTreeNode op (Some l) (Some r) flag.
Proof.
  destruct args as [|a0 [|a1 others]]; simpl.
  - discriminate.
  - destruct (convertToTree a0 flag); discriminate.
  - destruct (convertToTree a0 flag) as [l|] eqn:E0; simpl; try discriminate.
    destruct (convertToTree a1 flag) as [r|] eqn:E1; simpl; try discriminate.
    intros [= <-]. now exists a0, a1, others, l, r.
Qed.

Lemma convert_operator_short (op : jsstring) (args : list (MathNode V))
      (flag : bool) :
  (List.length args < 2)%nat ->
  exists e, convertToTree (OperatorNode op (Some args)) flag = Throw e.
Proof.
  destruct args as [|a0 [|a1 others]]; simpl; intros Hlen.
  - now exists TypeError.
  - destruct (convertToTree a0 flag) as [l|e]; simpl; eauto.
  - lia.
Qed.

Lemma convert_constant_inv (v : V) (flag : bool) (t : TreeNode) :
  convertToTree (ConstantNode v) flag = Return t ->
  exists s, toString v = Some s /\ t = mkTreeNode s None None flag.
Proof.
  simpl. destruct (toString v) as [s|]; [|discriminate].
  intros [= <-]. now exists s.
Qed.

(** Every node of a tree converted under a set flag has its flag set. *)
Lemma convert_true_all (n : MathNode V) :
  forall t, convertToTree n true = Return t ->
            forallb isSubExpression (nodes t) = true.
Proof.
  induction n as [op|op args IH|v| |c IH|k] using MathNode_ind; intros t Ht.
  - injection Ht as <-. reflexivity.
  - apply convert_operator_inv in Ht.
    destruct Ht as (a0 & a1 & others & l & r & -> & Hl & Hr & ->).
    inversion IH as [|? ? IH0 IH']; subst.
    inversion IH' as [|? ? IH1 _]; subst.
    simpl. rewrite forallb_app, (IH0 _ Hl), (IH1 _ Hr). reflexivity.
  - apply convert_constant_inv in Ht. destruct Ht as (s & _ & ->).
    reflexivity.
  - discriminate.
  - simpl in Ht. auto.
  - discriminate.
Qed.

Lemma convert_flagDownward (n : MathNode V) :
  forall flag t, convertToTree n flag = Return t ->
                 forallb flagDownward (nodes t) = true.
Proof.
  induction n as [op|op args IH|v| |c IH|k] using MathNode_ind;
    intros flag t Ht.
  - injection Ht as <-. simpl. unfold flagDownward. simpl.
    destruct flag; reflexivity.
  - pose proof Ht as Hall. apply convert_operator_inv in Ht.
    destruct Ht as (a0 & a1 & others & l & r & -> & Hl & Hr & ->).
    inversion IH as [|? ? IH0 IH']; subst.
    inversion IH' as [|? ? IH1 _]; subst.
    cbn [nodes left right forallb].
    rewrite forallb_app, (IH0 _ _ Hl), (IH1 _ _ Hr), andb_true_r.
    unfold flagDownward. cbn [isSubExpression].
    destruct flag; [|reflexivity].
    apply (convert_true_all _ _ Hall).
  - apply convert_constant_inv in Ht. destruct Ht as (s & _ & ->).
    unfold flagDownward. simpl. destruct flag; reflexivity.
  - discriminate.
  - simpl in Ht. eauto.
  - discriminate.
Qed.

Lemma convert_bothOrNeither (n : MathNode V) :
  forall flag t, convertToTree n flag = Return t ->
                 forallb bothOrNeither (nodes t) = true.
Proof.
  induction n as [op|op args IH|v| |c IH|k] using MathNode_ind;
    intros flag t Ht.
  - injection Ht as <-. reflexivity.
  - apply convert_operator_inv in Ht.
    destruct Ht as (a0 & a1 & others & l & r & -> & Hl & Hr & ->).
    inversion IH as [|? ? IH0 IH']; subst.
    inversion IH' as [|? ? IH1 _]; subst.
    cbn [nodes left right forallb].
    rewrite forallb_app, (IH0 _ _ Hl), (IH1 _ _ Hr). reflexivity.
  - apply convert_constant_inv in Ht. destruct Ht as (s & _ & ->).
    reflexivity.
  - discriminate.
  - simpl in Ht. eauto.
  - discriminate.
Qed.

Lemma convert_binaryOnly (n : MathNode V) :
  forall flag t, convertToTree n flag = Return t ->
                 forallb wellFormedAt (visits n) = true ->
                 forallb binaryOnly (nodes t) = true.
Proof.
  induction n as [op|op args IH|v| |c IH|k] using MathNode_ind;
    intros flag t Ht Hwf.
  - discriminate.
  - apply convert_operator_inv in Ht.
    destruct Ht as (a0 & a1 & others & l & r & -> & Hl & Hr & ->).
    inversion IH as [|? ? IH0 IH']; subst.
    inversion IH' as [|? ? IH1 _]; subst.
    cbn [visits forallb wellFormedAt isSome andb] in Hwf.
    rewrite forallb_app in Hwf.
    apply andb_prop in Hwf. destruct Hwf as [Hop Hwf].
    apply andb_prop in Hwf. destruct Hwf as [Hw0 Hw1].
    cbn [nodes left right forallb].
    rewrite forallb_app, (IH0 _ _ Hl Hw0), (IH1 _ _ Hr Hw1), andb_true_r.
    unfold binaryOnly, isOperatorValue. cbn [value left right].
    rewrite Hop. reflexivity.
  - apply convert_constant_inv in Ht. destruct Ht as (s & Hs & ->).
    simpl in Hwf. rewrite Hs in Hwf.
    unfold binaryOnly, isOperatorValue. simpl.
    destruct (isNaNOfString s); [discriminate | reflexivity].
  - discriminate.
  - simpl in Ht, Hwf. eauto.
  - discriminate.
Qed.

Lemma firstFailure_app (vs ws : list (Visited V)) :
  firstFailure (vs ++ ws) =
  match firstFailure vs with
  | Some v => Some v
  | None => firstFailure ws
  end.
Proof.
  unfold firstFailure. induction vs as [|v vs IH]; simpl; [reflexivity|].
  destruct (isSome (throwsAt v)); auto.
Qed.

(** A conversion returns when no call fails, with one tree node for each
    operator and constant node visited; it throws what the first failing
    call throws. *)
Lemma convert_spec (n : MathNode V) :
  forall flag,
    match convertToTree n flag with
    | Return t =>
        firstFailure (visits n) = None
        /\ List.length (nodes t)
           = List.length (filter yieldsNode (visits n))
    | Throw e =>
        exists v, firstFailure (visits n) = Some v /\ throwsAt v = Some e
    end.
Proof.
  induction n as [op|op args IH|v| |c IH|k] using MathNode_ind; intros flag.
  - simpl. auto.
  - destruct args as [|a0 [|a1 others]].
    + simpl. now exists VUndefined.
    + inversion IH as [|? ? IH0 _]; subst. specialize (IH0 flag).
      cbn [convertToTree visits]. change (firstFailure (?x :: ?l))
        with (firstFailure l).
      rewrite firstFailure_app.
      destruct (convertToTree a0 flag) as [l|e]; simpl.
      * destruct IH0 as [-> _]. now exists VUndefined.
      * destruct IH0 as (v & -> & Hv). now exists v.
    + inversion IH as [|? ? IH0 IH']; subst.
      inversion IH' as [|? ? IH1 _]; subst.
      specialize (IH0 flag). specialize (IH1 flag).
      cbn [convertToTree visits].
      change (firstFailure (?x :: ?l)) with (firstFailure l).
      rewrite firstFailure_app.
      destruct (convertToTree a0 flag) as [l|e]; simpl.
      * destruct IH0 as [-> Hl].
        destruct (convertToTree a1 flag) as [r|e]; simpl.
        -- destruct IH1 as [-> Hr].
           rewrite filter_app, !length_app, Hl, Hr. auto.
        -- destruct IH1 as (v & -> & Hv). now exists v.
      * destruct IH0 as (v & -> & Hv). now exists v.
  - unfold firstFailure. simpl. destruct (toString v) as [s|] eqn:E; simpl.
    + auto.
    + exists (VNode (ConstantNode v)). simpl. rewrite E. auto.
  - simpl. now exists VUndefined.
  - specialize (IH true). simpl. exact IH.
  - simpl. now exists (VNode (OtherNode k)).
Qed.

Lemma kindName_inj (k k' : OtherKind) : kindName k = kindName k' -> k = k'.
Proof.
  destruct k, k'; intros E; try reflexivity; vm_compute in E; discriminate E.
Qed.

End ConverterFacts.

(** ** The normalizer *)

Section RegExpFacts.

Variable p : char -> bool.

Lemma star_In (s : jsstring) (m : Match) :
  In m (star p s) ->
  s = matched m ++ rest m
  /\ forallb p (matched m) = true
  /\ captures m = [].
Proof.
  revert m. induction s as [|c s IH]; intros m; simpl.
  - intros [<-|[]]. auto.
  - destruct (p c) eqn:Hc.
    + rewrite in_app_iff, in_map_iff.
      intros [(m' & <- & Hm')|[<-|[]]]; [|auto].
      destruct (IH _ Hm') as (Hs & Hp & Hcap). simpl.
      rewrite Hc, Hp, Hcap, <- Hs. auto.
    + intros [<-|[]]. auto.
Qed.

Lemma class_In (s : jsstring) (m : Match) :
  In m (class p s) ->
  exists c, p c = true /\ s = c :: rest m /\ matched m = [c]
            /\ captures m = [].
Proof.
  destruct s as [|c s]; simpl; [intros []|].
  destruct (p c) eqn:Hc; [|intros []].
  intros [<-|[]]. now exists c.
Qed.

Lemma plus_In (s : jsstring) (m : Match) :
  In m (exec (Plus p) s) ->
  s = matched m ++ rest m
  /\ forallb p (matched m) = true
  /\ matched m <> []
  /\ captures m = [].
Proof.
  simpl. rewrite in_flat_map. intros (m1 & H1 & Hm).
  apply in_map_iff in Hm. destruct Hm as (m2 & <- & H2).
  apply class_In in H1. destruct H1 as (c & Hc & Hs & Hm1 & Hc1).
  apply star_In in H2. destruct H2 as (Hr & Hp & Hc2).
  unfold andThen. simpl. rewrite Hm1, Hc1, Hc2. simpl.
  rewrite Hc, Hp, <- Hr. repeat split; [exact Hs | discriminate].
Qed.

(** A single-character pattern replaced by a single character. *)
Lemma replace_class (c' : char) (s : jsstring) :
  replace (Class p) [Text [c']] s = map (fun c => if p c then c' else c) s.
Proof.
  unfold replace. induction s as [|c s IH]; [reflexivity|].
  simpl. destruct (p c); simpl; now rewrite IH.
Qed.

Lemma replace_group_class (c' : char) (s : jsstring) :
  replace (Group (Class p)) [Text [c']] s
  = map (fun c => if p c then c' else c) s.
Proof.
  unfold replace. induction s as [|c s IH]; [reflexivity|].
  simpl. destruct (p c); simpl; now rewrite IH.
Qed.

End RegExpFacts.

(** Where a pattern matches at no position, [replace] leaves the string
    as it is. *)
Lemma replace_no_match (r : regex) (tpl : list piece)
      (Q : jsstring -> Prop) :
  (forall c t, Q (c :: t) -> Q t) ->
  (forall t, Q t -> exec r t = []) ->
  forall s, Q s -> replace r tpl s = s.
Proof.
  intros Htail Hno. unfold replace.
  induction s as [|c s IH]; intros HQ; simpl; rewrite (Hno _ HQ).
  - reflexivity.
  - f_equal. eauto.
Qed.

Lemma flat_map_nil {A B : Type} (f : A -> list B) (l : list A) :
  (forall x, In x l -> f x = []) -> flat_map f l = [].
Proof.
  induction l as [|x l IH]; simpl; intros Hf; [reflexivity|].
  rewrite (Hf x), IH; auto.
Qed.

Lemma noDigit_tail (c : char) (t : jsstring) : noDigit (c :: t) -> noDigit t.
Proof.
  unfold noDigit. simpl. intros Hn. now apply andb_prop in Hn.
Qed.

Lemma noDigit_app_r (a b : jsstring) : noDigit (a ++ b) -> noDigit b.
Proof.
  unfold noDigit. rewrite forallb_app. intros Hn. now apply andb_prop in Hn.
Qed.

Lemma plus_noDigit (s : jsstring) : noDigit s -> exec (Plus isDigit) s = [].
Proof.
  destruct s as [|c s]; [reflexivity|].
  unfold noDigit. simpl. destruct (isDigit c); [discriminate | reflexivity].
Qed.

Lemma digitsBeforeParen_noDigit (s : jsstring) :
  noDigit s -> exec digitsBeforeParen s = [].
Proof.
  intros Hn. unfold digitsBeforeParen.
  cbn [exec]. change (flat_map _ (class isDigit s)) with (exec (Plus isDigit) s).
  now rewrite (plus_noDigit _ Hn).
Qed.

Lemma digitsAfterParen_noDigit (s : jsstring) :
  noDigit s -> exec digitsAfterParen s = [].
Proof.
  intros Hn. unfold digitsAfterParen. cbn [exec].
  apply flat_map_nil. intros m1 H1.
  apply in_map_iff in H1. destruct H1 as (m0 & <- & H0).
  apply class_In in H0. destruct H0 as (c & _ & Hs & _). subst s.
  apply noDigit_tail in Hn. cbn [capture rest].
  rewrite flat_map_nil; [reflexivity|].
  intros m2 H2. apply star_In in H2. destruct H2 as (Hr & _).
  rewrite Hr in Hn. apply noDigit_app_r in Hn.
  change (flat_map _ (class isDigit (rest m2)))
    with (exec (Plus isDigit) (rest m2)).
  now rewrite (plus_noDigit _ Hn).
Qed.

Lemma isBracket_cases (c : char) :
  isBracket c = true ->
  c = chr "(" \/ c = chr ")" \/ c = chr "{" \/ c = chr "}"
  \/ c = chr "[" \/ c = chr "]".
Proof.
  unfold isBracket. simpl. rewrite !orb_true_iff, !N.eqb_eq.
  intros [?|[?|[?|[?|[?|[?|?]]]]]]; subst; auto 10. discriminate.
Qed.

Lemma map_fixed {A : Type} (f : A -> A) (l : list A) :
  (forall x, In x l -> f x = x) -> map f l = l.
Proof.
  intros Hf. rewrite <- (map_id l) at 2. now apply map_ext_in.
Qed.

Lemma normalizeBracket_noDigit (s : jsstring) :
  forallb isBracket s = true -> noDigit (map normalizeBracket s).
Proof.
  unfold noDigit. intros Hs.
  apply forallb_forall. intros d Hd.
  apply in_map_iff in Hd. destruct Hd as (c & <- & Hc).
  apply (proj1 (forallb_forall _ _) Hs), isBracket_cases in Hc.
  destruct Hc as [?|[?|[?|[?|[?|?]]]]]; subst; reflexivity.
Qed.

(** On a string of brackets the normalizer only rewrites the brackets. *)
Lemma preprocess_brackets (s : jsstring) :
  forallb isBracket s = true ->
  preprocessExpression s = map normalizeBracket s.
Proof.
  intros Hs. unfold preprocessExpression.
  change (lit "(") with [chr "("]. change (lit ")") with [chr ")"].
  change (lit "-") with [chr "-"].
  rewrite !replace_class, !map_map.
  rewrite (map_ext_in _ normalizeBracket).
  2:{ intros c Hc.
      apply (proj1 (forallb_forall _ _) Hs), isBracket_cases in Hc.
      destruct Hc as [?|[?|[?|[?|[?|?]]]]]; subst; reflexivity. }
  pose proof (normalizeBracket_noDigit _ Hs) as Hn.
  rewrite (replace_no_match _ _ _ noDigit_tail digitsBeforeParen_noDigit _ Hn).
  rewrite (replace_no_match _ _ _ noDigit_tail digitsAfterParen_noDigit _ Hn).
  rewrite replace_group_class, map_map.
  apply map_ext_in. intros c Hc.
  apply (proj1 (forallb_forall _ _) Hs), isBracket_cases in Hc.
  destruct Hc as [?|[?|[?|[?|[?|?]]]]]; subst; reflexivity.
Qed.

Lemma normalizeBracket_isBracket (s : jsstring) :
  forallb isBracket s = true ->
  forallb isBracket (map normalizeBracket s) = true.
Proof.
  intros Hs. apply forallb_forall. intros d Hd.
  apply in_map_iff in Hd. destruct Hd as (c & <- & Hc).
  apply (proj1 (forallb_forall _ _) Hs), isBracket_cases in Hc.
  destruct Hc as [?|[?|[?|[?|[?|?]]]]]; subst; reflexivity.
Qed.

Lemma normalizeBracket_twice (s : jsstring) :
  forallb isBracket s = true ->
  map normalizeBracket (map normalizeBracket s) = map normalizeBracket s.
Proof.
  intros Hs. rewrite map_map. apply map_ext_in. intros c Hc.
  apply (proj1 (forallb_forall _ _) Hs), isBracket_cases in Hc.
  destruct Hc as [?|[?|[?|[?|[?|?]]]]]; subst; reflexivity.
Qed.

(** C8. Applied twice to a string made only of the characters
    [( ) { } [ ]], the normalizer yields what it yields applied once. *)
Theorem C8_normalizer_idempotent_on_brackets (s : jsstring) :
  forallb isBracket s = true ->
  preprocessExpression (preprocessExpression s) = preprocessExpression s.
Proof.
  intros Hs. rewrite (preprocess_brackets _ Hs).
  rewrite (preprocess_brackets _ (normalizeBracket_isBracket _ Hs)).
  now apply normalizeBracket_twice.
Qed.

Lemma C8_witness :
  forallb isBracket (lit "{[()]}(") = true
  /\ preprocessExpression (preprocessExpression (lit "{[()]}("))
     = preprocessExpression (lit "{[()]}(").
Proof.
  split; [reflexivity|].
  apply (C8_normalizer_idempotent_on_brackets (lit "{[()]}(")).
  reflexivity.
Defined.

(** *** The backtracking matcher against the direct reading of rule 3 *)

Lemma star_span (p : char -> bool) (s : jsstring) :
  exists tail,
    star p s = mkMatch (fst (span p s)) [] (snd (span p s)) :: tail
    /\ Forall (fun m => exists c r, rest m = c :: r /\ p c = true) tail.
Proof.
  induction s as [|c s (tail & Hstar & Htail)]; simpl.
  - exists []. auto.
  - destruct (p c) eqn:Hc.
    + rewrite Hstar. destruct (span p s) as [a r]. simpl.
      exists (map (consumed c) tail ++ [mkMatch [] [] (c :: s)]).
      split; [reflexivity|].
      apply Forall_app. split.
      * apply Forall_map. revert Htail. apply Forall_impl. auto.
      * constructor; [|constructor]. now exists c, s.
    + exists []. auto.
Qed.

Lemma digit_not_space (c : char) :
  isDigit c = true -> isWhiteSpace c = false.
Proof.
  unfold isDigit, isWhiteSpace.
  rewrite andb_true_iff, !orb_false_iff, !andb_false_iff, !N.leb_le,
    !N.leb_gt, !N.eqb_neq.
  lia.
Qed.

Lemma digit_not_paren (c : char) :
  isDigit c = true -> isChar "(" c = false.
Proof.
  unfold isDigit, isChar. simpl.
  rewrite andb_true_iff, !N.leb_le, N.eqb_neq. lia.
Qed.

Lemma space_not_paren (c : char) :
  isWhiteSpace c = true -> isChar "(" c = false.
Proof.
  unfold isWhiteSpace, isChar. simpl.
  rewrite !orb_true_iff, !andb_true_iff, !N.leb_le, !N.eqb_eq, N.eqb_neq.
  lia.
Qed.

Lemma exec_seq (r1 r2 : regex) (s : jsstring) :
  exec (Seq r1 r2) s
  = flat_map (fun m1 => map (andThen m1) (exec r2 (rest m1))) (exec r1 s).
Proof. reflexivity. Qed.

Lemma exec_group (r : regex) (s : jsstring) :
  exec (Group r) s = map capture (exec r s).
Proof. reflexivity. Qed.

Lemma exec_plus (p : char -> bool) (s : jsstring) :
  exec (Plus p) s
  = match s with
    | c :: s' =>
        if p c then map (andThen (mkMatch [c] [] s')) (star p s') else []
    | [] => []
    end.
Proof.
  destruct s as [|c s]; [reflexivity|].
  simpl. destruct (p c); [|reflexivity]. simpl. now rewrite app_nil_r.
Qed.

(** White space and then the parenthesis: only the longest run of white
    space can be followed by the parenthesis. *)
Lemma spaceThenParen_exec (s : jsstring) :
  exec (Seq (Star isWhiteSpace) (Class (isChar "("))) s
  = match snd (span isWhiteSpace s) with
    | c :: r =>
        if isChar "(" c
        then [mkMatch (fst (span isWhiteSpace s) ++ [c]) [] r]
        else []
    | [] => []
    end.
Proof.
  cbn [exec]. destruct (star_span isWhiteSpace s) as (tail & -> & Htail).
  cbn [flat_map rest]. rewrite (flat_map_nil _ tail).
  - rewrite app_nil_r. destruct (snd (span isWhiteSpace s)) as [|c r];
      [reflexivity|].
    simpl. destruct (isChar "(" c); reflexivity.
  - intros m Hm. apply (proj1 (Forall_forall _ _) Htail) in Hm.
    destruct Hm as (c & r & -> & Hc). simpl.
    now rewrite (space_not_paren _ Hc).
Qed.

(** The backtracking matcher finds at most one match of rule 3 at a
    position, and it is the one of the direct reading. *)
Lemma digitsBeforeParen_exec (s : jsstring) :
  exec digitsBeforeParen s
  = match scanDigitsBeforeParen s with Some m => [m] | None => [] end.
Proof.
  unfold digitsBeforeParen, scanDigitsBeforeParen.
  set (behind := Seq (Star isWhiteSpace) (Class (isChar "("))).
  rewrite exec_seq, exec_group, exec_plus.
  destruct s as [|c s]; [reflexivity|].
  cbn [span]. destruct (isDigit c) eqn:Hc.
  2:{ cbn [map flat_map].
      destruct (span isWhiteSpace (c :: s)) as [ws r']. reflexivity. }
  destruct (star_span isDigit s) as (tail & -> & Htail).
  destruct (span isDigit s) as [ds r]. cbn [fst snd map flat_map].
  rewrite (flat_map_nil _ (map capture (map _ tail))).
  - rewrite app_nil_r. cbn [capture andThen rest matched captures].
    rewrite exec_group. unfold behind. rewrite spaceThenParen_exec.
    destruct (span isWhiteSpace r) as [ws r']. cbn [fst snd].
    destruct r' as [|c' r'']; [reflexivity|].
    destruct (isChar "(" c'); [|reflexivity].
    reflexivity.
  - intros m Hm.
    apply in_map_iff in Hm. destruct Hm as (m' & <- & Hm).
    apply in_map_iff in Hm. destruct Hm as (m'' & <- & Hm).
    apply (proj1 (Forall_forall _ _) Htail) in Hm.
    destruct Hm as (d & r' & Hr & Hd).
    cbn [capture andThen rest]. rewrite Hr, exec_group.
    unfold behind. rewrite spaceThenParen_exec.
    cbn [span]. rewrite (digit_not_space _ Hd). cbn [snd].
    now rewrite (digit_not_paren _ Hd).
Qed.

Lemma span_app (p : char -> bool) (s : jsstring) :
  s = fst (span p s) ++ snd (span p s).
Proof.
  induction s as [|c s IH]; [reflexivity|].
  simpl. destruct (p c); [|reflexivity].
  destruct (span p s) as [a r]. simpl in *. now rewrite <- IH.
Qed.

Lemma span_run (p : char -> bool) (a : jsstring) (c : char) (b : jsstring) :
  forallb p a = true -> p c = false -> span p (a ++ c :: b) = (a, c :: b).
Proof.
  intros Ha Hc. induction a as [|x a IH]; simpl.
  - now rewrite Hc.
  - simpl in Ha. apply andb_prop in Ha. destruct Ha as [-> Ha].
    now rewrite (IH Ha).
Qed.

Lemma replaceFrom_skip (r : regex) (tpl : list piece) (a b : jsstring) :
  replaceFrom r tpl (List.length a) (a ++ b) = replaceFrom r tpl 0 b.
Proof.
  induction a as [|c a IH]; [reflexivity|]. exact IH.
Qed.

Lemma scanDigitsBeforeParen_Some (s : jsstring) (m : Match) :
  scanDigitsBeforeParen s = Some m ->
  exists c t, matched m = c :: t /\ s = c :: t ++ rest m.
Proof.
  unfold scanDigitsBeforeParen.
  pose proof (span_app isDigit s) as Hs.
  destruct (span isDigit s) as [ds r]. cbn [fst snd] in Hs.
  pose proof (span_app isWhiteSpace r) as Hr.
  destruct (span isWhiteSpace r) as [ws r']. cbn [fst snd] in Hr.
  destruct ds as [|d ds]; [discriminate|].
  destruct r' as [|c r'']; [discriminate|].
  destruct (isChar "(" c); [|discriminate].
  intros [= <-]. exists d, (ds ++ ws ++ [c]). cbn.
  split; [reflexivity|].
  rewrite Hs, Hr. cbn. now rewrite <- !app_assoc.
Qed.

(** Rule 3 as a scan: at a position where the direct reading finds a
    match the replacement is written and the scan resumes behind the
    match; elsewhere the character is kept. *)
Lemma replace_digitsBeforeParen (s : jsstring) :
  replace digitsBeforeParen timesBetween s
  = match scanDigitsBeforeParen s with
    | Some m =>
        substitute timesBetween m
        ++ replace digitsBeforeParen timesBetween (rest m)
    | None =>
        match s with
        | c :: s' => c :: replace digitsBeforeParen timesBetween s'
        | [] => []
        end
    end.
Proof.
  unfold replace. destruct s as [|c s]; [reflexivity|].
  cbn [replaceFrom]. rewrite digitsBeforeParen_exec.
  destruct (scanDigitsBeforeParen (c :: s)) as [m|] eqn:Hscan;
    [|reflexivity].
  apply scanDigitsBeforeParen_Some in Hscan.
  destruct Hscan as (c' & t & Hm & [= <- ->]).
  rewrite Hm. cbn [List.length]. now rewrite replaceFrom_skip.
Qed.

Lemma scan_no_digit (c : char) (s : jsstring) :
  isDigit c = false -> scanDigitsBeforeParen (c :: s) = None.
Proof.
  intros Hc. unfold scanDigitsBeforeParen. cbn [span]. rewrite Hc.
  destruct (span isWhiteSpace (c :: s)) as [ws r']. reflexivity.
Qed.

Lemma scan_digits_then (ds : jsstring) (c : char) (s : jsstring) :
  forallb isDigit ds = true -> isDigit c = false ->
  isWhiteSpace c = false ->
  scanDigitsBeforeParen (ds ++ c :: s)
  = match ds with
    | [] => None
    | _ :: _ =>
        if isChar "(" c then Some (mkMatch (ds ++ [c]) [ds; [c]] s) else None
    end.
Proof.
  intros Hds Hc Hw. unfold scanDigitsBeforeParen.
  rewrite (span_run isDigit ds c s Hds Hc). cbn [span]. rewrite Hw.
  destruct ds; reflexivity.
Qed.

(** A decimal numeral before a parenthesis: the digits of the fraction
    are a digit run next to the parenthesis, and rule 3 writes the
    operator behind them. *)
Lemma replace_decimal_before_paren (intPart fracPart behind : jsstring) :
  forallb isDigit intPart = true ->
  forallb isDigit fracPart = true ->
  fracPart <> [] ->
  replace digitsBeforeParen timesBetween
          (intPart ++ chr "." :: fracPart ++ chr "(" :: behind)
  = intPart ++ chr "." :: fracPart ++ lit " * ("
    ++ replace digitsBeforeParen timesBetween behind.
Proof.
  intros Hint Hfrac Hne.
  induction intPart as [|d ds IH].
  - cbn [app]. rewrite replace_digitsBeforeParen.
    rewrite (scan_no_digit (chr ".") _ eq_refl). f_equal.
    rewrite replace_digitsBeforeParen.
    rewrite (scan_digits_then fracPart (chr "(") behind Hfrac eq_refl eq_refl).
    destruct fracPart as [|f fs]; [contradiction|].
    change (isChar "(" (chr "(")) with true. cbv iota.
    unfold timesBetween, substitute. cbn [flat_map nth pred captures rest].
    rewrite app_nil_r, <- !app_assoc. reflexivity.
  - rewrite replace_digitsBeforeParen.
    rewrite (scan_digits_then (d :: ds) (chr ".") _ Hint eq_refl eq_refl).
    change (isChar "(" (chr ".")) with false. cbv iota.
    cbn [app]. f_equal. apply IH.
    simpl in Hint. now apply andb_prop in Hint.
Qed.

(** The normalizer on the texts of scenarios 1 and 3, and on a numeral
    held apart from the parenthesis by a space, which [$2] keeps. *)
Example preprocess_scenario_1 :
  preprocessExpression (lit "(2+3)*(10-5)") = lit "(2+3)*(10-5)".
Proof. reflexivity. Qed.

Example preprocess_scenario_3 :
  preprocessExpression (lit "5 " ++ [enDash] ++ lit " 2") = lit "5 - 2".
Proof. reflexivity. Qed.

Example preprocess_keeps_space :
  preprocessExpression (lit "12 (3)4") = lit "12 *  (3) * 4".
Proof. reflexivity. Qed.

(** What the two implicit-multiplication patterns match: a non-empty run
    of ASCII digits, white space, and the parenthesis. *)
Lemma digitsBeforeParen_In (s : jsstring) (m : Match) :
  In m (exec digitsBeforeParen s) ->
  exists ds ws,
    s = ds ++ ws ++ chr "(" :: rest m
    /\ ds <> []
    /\ forallb isDigit ds = true
    /\ forallb isWhiteSpace ws = true
    /\ captures m = [ds; ws ++ [chr "("]].
Proof.
  unfold digitsBeforeParen. cbn [exec].
  change (flat_map _ (class isDigit s)) with (exec (Plus isDigit) s).
  rewrite in_flat_map. intros (m1 & H1 & Hm).
  apply in_map_iff in H1. destruct H1 as (md & <- & Hd).
  apply plus_In in Hd. destruct Hd as (Hs & Hds & Hne & Hcd).
  apply in_map_iff in Hm. destruct Hm as (m2 & <- & H2).
  apply in_map_iff in H2. destruct H2 as (m3 & <- & H3).
  apply in_flat_map in H3. destruct H3 as (mw & Hw & H3).
  apply in_map_iff in H3. destruct H3 as (mp & <- & Hp).
  apply star_In in Hw. destruct Hw as (Hr & Hws & Hcw).
  apply class_In in Hp. destruct Hp as (c & Hc & Hrp & Hmp & Hcp).
  apply N.eqb_eq in Hc. subst c.
  exists (matched md), (matched mw). cbn.
  cbn in Hr. rewrite Hcd, Hcw, Hcp, Hmp. cbn.
  repeat split; auto. now rewrite Hs, Hr, Hrp.
Qed.

Lemma digitsAfterParen_In (s : jsstring) (m : Match) :
  In m (exec digitsAfterParen s) ->
  exists ws ds,
    s = chr ")" :: ws ++ ds ++ rest m
    /\ ds <> []
    /\ forallb isDigit ds = true
    /\ forallb isWhiteSpace ws = true
    /\ captures m = [[chr ")"]; ws ++ ds].
Proof.
  unfold digitsAfterParen. cbn [exec].
  rewrite in_flat_map. intros (m1 & H1 & Hm).
  apply in_map_iff in H1. destruct H1 as (mp & <- & Hp).
  apply class_In in Hp. destruct Hp as (c & Hc & Hs & Hmp & Hcp).
  apply N.eqb_eq in Hc. subst c.
  apply in_map_iff in Hm. destruct Hm as (m2 & <- & H2).
  apply in_map_iff in H2. destruct H2 as (m3 & <- & H3).
  apply in_flat_map in H3. destruct H3 as (mw & Hw & H3).
  apply in_map_iff in H3. destruct H3 as (md & <- & Hd).
  apply star_In in Hw. destruct Hw as (Hr & Hws & Hcw).
  change (flat_map _ (class isDigit (rest mw)))
    with (exec (Plus isDigit) (rest mw)) in Hd.
  apply plus_In in Hd. destruct Hd as (Hrd & Hds & Hne & Hcd).
  exists (matched mw), (matched md). cbn.
  cbn in Hr. rewrite Hcd, Hcw, Hcp, Hmp. cbn.
  repeat split; auto. now rewrite Hs, Hr, Hrd.
Qed.

Lemma binaryOnly_BinaryOnly (t : TreeNode) :
  binaryOnly t = true -> BinaryOnly t.
Proof.
  unfold binaryOnly, BinaryOnly.
  destruct (isOperatorValue t), (left t), (right t); simpl;
    intros Hb; try discriminate Hb.
  - left. repeat split; discriminate.
  - right. auto.
Qed.

(** ** The claims *)

(** C1, as stated: every node of a produced tree has an operator value and
    both children, or a numeric value and no child.  It fails on the
    constant NaN: its node has no child and the value ["NaN"], which does
    not parse as a number. *)
Lemma C1_counterexample :
  convertToTree (ConstantNode NumberNaN) false = Return (leaf "NaN" false)
  /\ In (leaf "NaN" false) (nodes (leaf "NaN" false))
  /\ ~ BinaryOnly (leaf "NaN" false).
Proof.
  split; [reflexivity|]. split; [now left|].
  intros [(_ & Hl & _)|(Hv & _)]; [now apply Hl | discriminate Hv].
Qed.

(** C1, amended: in every tree the converter produces, a node has both
    children or none, never exactly one; and where every visited operator
    node has its operands array and a symbol that does not parse as a
    number, and every visited constant renders to text that parses as a
    number, each node has an operator value and both children, or a
    numeric value and no child. *)
Theorem C1_binary_only {V : Type} `{ToString V}
        (node : MathNode V) (flag : bool) (t : TreeNode) :
  convertToTree node flag = Return t ->
  (forall x, In x (nodes t) -> (left x = None <-> right x = None))
  /\ (forallb wellFormedAt (visits node) = true ->
      forall x, In x (nodes t) -> BinaryOnly x).
Proof.
  intros Ht. split.
  - intros x Hx.
    pose proof (convert_bothOrNeither _ _ _ Ht) as Hb.
    apply (proj1 (forallb_forall _ _) Hb) in Hx.
    unfold bothOrNeither in Hx.
    destruct (left x), (right x); simpl in Hx; try discriminate Hx;
      split; auto; discriminate.
  - intros Hwf x Hx. apply binaryOnly_BinaryOnly.
    pose proof (convert_binaryOnly _ _ _ Ht Hwf) as Hb.
    now apply (proj1 (forallb_forall _ _) Hb).
Qed.

Lemma C1_witness :
  convertToTree scenario2Node false = Return scenario2Tree
  /\ forallb wellFormedAt (visits scenario2Node) = true
  /\ (forall x, In x (nodes scenario2Tree) -> BinaryOnly x).
Proof.
  split; [reflexivity|]. split; [reflexivity|].
  apply (C1_binary_only scenario2Node false scenario2Tree); reflexivity.
Defined.

(** C2, as stated: an operator node without exactly two operands makes the
    converter throw the unsupported-node error.  With three operands it
    returns a tree, and with one operand it throws a TypeError. *)
Lemma C2_counterexample :
  convertToTree (OperatorNode (lit "+") (Some [number 1; number 2; number 3]))
                false
  = Return (mkTreeNode (lit "+") (Some (leaf "1" false))
                       (Some (leaf "2" false)) false)
  /\ convertToTree (OperatorNode (lit "-") (Some [number 5])) false
     = Throw TypeError.
Proof. split; reflexivity. Qed.

(** C2, amended: the converter throws the unsupported-node error for kind
    [k] exactly when the first call that fails, in the order of the calls,
    is on a node of kind [k], outside Operator, Constant and Grouping.  An
    operator node with fewer than two operands yields no tree: it throws a
    TypeError, unless the conversion of its one operand throws first.  An
    operator node with more than two operands is converted as if it had
    its first two only. *)
Theorem C2_unsupported_node_error {V : Type} `{ToString V}
        (node : MathNode V) (flag : bool) :
  (forall k,
      convertToTree node flag = Throw (UnsupportedNodeError k)
      <-> firstFailure (visits node) = Some (VNode (OtherNode k)))
  /\ (forall op args,
         node = OperatorNode op (Some args) ->
         (List.length args < 2)%nat ->
         convertToTree node flag = Throw TypeError
         \/ exists a e, args = [a] /\ convertToTree a flag = Throw e
                        /\ convertToTree node flag = Throw e)
  /\ (forall op a0 a1 others,
         node = OperatorNode op (Some (a0 :: a1 :: others)) ->
         convertToTree node flag
         = convertToTree (OperatorNode op (Some [a0; a1])) flag).
Proof.
  split; [|split].
  - intros k. pose proof (convert_spec node flag) as Hspec. split.
    + intros Hthrow. rewrite Hthrow in Hspec.
      destruct Hspec as (v & Hv & Hat). rewrite Hv. f_equal.
      destruct v as [[op args|c|content|k']|]; simpl in Hat.
      * discriminate.
      * destruct (toString c); discriminate.
      * discriminate.
      * injection Hat as Hk. apply kindName_inj in Hk. now subst.
      * discriminate.
    + intros Hfirst. rewrite Hfirst in Hspec.
      destruct (convertToTree node flag) as [t|e].
      * destruct Hspec as [Hnone _]. discriminate.
      * destruct Hspec as (v & [= <-] & Hat). simpl in Hat.
        now injection Hat as <-.
  - intros op args -> Hlen.
    destruct args as [|a [|a1 others]]; simpl in *; try lia.
    + now left.
    + destruct (convertToTree a flag) as [l|e] eqn:Ea; simpl; [now left|].
      right. exists a, e. rewrite Ea. auto.
  - intros op a0 a1 others ->. reflexivity.
Qed.

Lemma C2_witness :
  (List.length [number 5] < 2)%nat
  /\ (convertToTree (OperatorNode (lit "-") (Some [number 5])) false
      = Throw TypeError
      \/ exists a e,
           [number 5] = [a] /\ convertToTree a false = Throw e
           /\ convertToTree (OperatorNode (lit "-") (Some [number 5])) false
              = Throw e).
Proof.
  split; [simpl; lia|].
  apply (proj1 (proj2 (C2_unsupported_node_error
                         (OperatorNode (lit "-") (Some [number 5])) false))
               (lit "-") [number 5]).
  - reflexivity.
  - simpl; lia.
Defined.

(** C3. The conversion of a grouping node is the conversion of the wrapped
    node with the flag set, whatever flag was passed; the tree has as many
    nodes as the wrapped node has operator and constant nodes visited, so
    the grouping node adds none. *)
Theorem C3_grouping_transparent {V : Type} `{ToString V}
        (content : MathNode V) (flag : bool) :
  convertToTree (ParenthesisNode (Some content)) flag
  = convertToTree content true
  /\ (forall t,
         convertToTree (ParenthesisNode (Some content)) flag = Return t ->
         List.length (nodes t)
         = List.length (filter yieldsNode (visits content))).
Proof.
  split; [reflexivity|].
  intros t Ht. simpl in Ht.
  pose proof (convert_spec content true) as Hspec.
  rewrite Ht in Hspec. now destruct Hspec.
Qed.

Lemma C3_witness :
  convertToTree (ParenthesisNode (Some scenario2Node)) false
  = Return (mkTreeNode (lit "*")
              (Some (leaf "2" true))
              (Some (mkTreeNode (lit "+")
                       (Some (leaf "3" true)) (Some (leaf "4" true)) true))
              true)
  /\ List.length
       (nodes (mkTreeNode (lit "*")
                 (Some (leaf "2" true))
                 (Some (mkTreeNode (lit "+")
                          (Some (leaf "3" true)) (Some (leaf "4" true)) true))
                 true))
     = List.length (filter yieldsNode (visits scenario2Node)).
Proof.
  split; [reflexivity|].
  apply (proj2 (C3_grouping_transparent scenario2Node false)).
  reflexivity.
Defined.

(** C4. The normalizer turns ["2(3+4)"] into ["2 * (3+4)"]; and when the
    parser reads that text as the product of 2 and the group 3+4, a
    submission of ["2(3+4)"] yields the tree with root [*], left child
    [2], and right subtree [+] flagged as a sub-expression with the
    children [3] and [4]; nothing is logged. *)
Theorem C4_scenario_2
        (parse : jsstring -> Result (MathNode JSValue))
        (previous : option TreeNode) :
  parse (lit "2 * (3+4)") = Return scenario2Node ->
  preprocessExpression (lit "2(3+4)") = lit "2 * (3+4)"
  /\ handleSubmit parse (mkAppState (lit "2(3+4)") previous)
     = (mkAppState (lit "2(3+4)") (Some scenario2Tree), []).
Proof.
  intros Hparse.
  assert (Hpre : preprocessExpression (lit "2(3+4)") = lit "2 * (3+4)")
    by reflexivity.
  split; [exact Hpre|].
  unfold handleSubmit, parseExpression. cbn [expression].
  rewrite Hpre, Hparse. reflexivity.
Qed.

Lemma C4_witness :
  Reference.parse (lit "2 * (3+4)") = Return scenario2Node
  /\ preprocessExpression (lit "2(3+4)") = lit "2 * (3+4)"
  /\ handleSubmit Reference.parse (mkAppState (lit "2(3+4)") None)
     = (mkAppState (lit "2(3+4)") (Some scenario2Tree), []).
Proof.
  split; [reflexivity|].
  apply (C4_scenario_2 Reference.parse None). reflexivity.
Defined.

(** C5, as stated: the normalizer turns ["[1+2]*{3+4}"] into
    ["(1+2) * (3+4)"].  It does not: no rule puts spaces around an
    operator that is already there. *)
Lemma C5_counterexample :
  preprocessExpression (lit "[1+2]*{3+4}") <> lit "(1+2) * (3+4)".
Proof. vm_compute. discriminate. Qed.

(** C5, amended: the normalizer turns ["[1+2]*{3+4}"] into
    ["(1+2)*(3+4)"]. *)
Theorem C5_scenario_5 :
  preprocessExpression (lit "[1+2]*{3+4}") = lit "(1+2)*(3+4)".
Proof. reflexivity. Qed.

(** C6. When the parser throws on the text it is given, [parseExpression]
    returns no tree and writes one diagnostic carrying what was thrown;
    a submission whose normalized text is that text stores no tree, with
    the same diagnostic. *)
Theorem C6_parse_failure {V : Type} `{ToString V}
        (parse : jsstring -> Result (MathNode V))
        (text : jsstring) (e : Thrown) :
  parse text = Throw e ->
  parseExpression parse text
  = (None, [ConsoleError (lit "Invalid expression:") e])
  /\ (forall st,
         preprocessExpression (expression st) = text ->
         handleSubmit parse st
         = (mkAppState (expression st) None,
            [ConsoleError (lit "Invalid expression:") e])).
Proof.
  intros Hparse.
  assert (Hp : parseExpression parse text
               = (None, [ConsoleError (lit "Invalid expression:") e])).
  { unfold parseExpression. now rewrite Hparse. }
  split; [exact Hp|].
  intros st <-. unfold handleSubmit. now rewrite Hp.
Qed.

Lemma C6_witness :
  Reference.parse (lit "(2+") = Throw (SyntaxError (lit "Value expected"))
  /\ preprocessExpression (lit "(2+") = lit "(2+"
  /\ parseExpression Reference.parse (lit "(2+")
     = (None, [ConsoleError (lit "Invalid expression:")
                            (SyntaxError (lit "Value expected"))])
  /\ handleSubmit Reference.parse (mkAppState (lit "(2+") None)
     = (mkAppState (lit "(2+") None,
        [ConsoleError (lit "Invalid expression:")
                      (SyntaxError (lit "Value expected"))]).
Proof.
  split; [reflexivity|]. split; [reflexivity|].
  destruct (C6_parse_failure Reference.parse (lit "(2+")
              (SyntaxError (lit "Value expected")) eq_refl) as [Hp Hs].
  split; [exact Hp|].
  apply (Hs (mkAppState (lit "(2+") None)). reflexivity.
Defined.

(** C7, as stated: on ["2.5(3)"] the digit pattern does not match and no
    multiplication operator is inserted.  The pattern matches the digit
    run ["5"] before the parenthesis, and the output has the operator. *)
Lemma C7_counterexample :
  exec digitsBeforeParen (lit "5(3)")
  = [mkMatch (lit "5(") [lit "5"; lit "("] (lit "3)")]
  /\ preprocessExpression (lit "2.5(3)") <> lit "2.5(3)"
  /\ In (chr "*") (preprocessExpression (lit "2.5(3)")).
Proof.
  split; [reflexivity|]. split.
  - vm_compute. discriminate.
  - vm_compute. auto 10.
Qed.

(** C7, amended: the patterns of rules 3 and 4 match only a non-empty run
    of ASCII digits next to a parenthesis, white space allowed between
    them.  The digits of the fraction of a decimal numeral that stands
    before a parenthesis are such a run, so rule 3 writes the
    multiplication operator behind them; the normalizer turns ["2.5(3)"]
    into ["2.5 * (3)"]. *)
Theorem C7_digit_runs_next_to_parenthesis :
  (forall s m,
      In m (exec digitsBeforeParen s) ->
      exists ds ws,
        s = ds ++ ws ++ chr "(" :: rest m
        /\ ds <> [] /\ forallb isDigit ds = true
        /\ forallb isWhiteSpace ws = true
        /\ captures m = [ds; ws ++ [chr "("]])
  /\ (forall s m,
         In m (exec digitsAfterParen s) ->
         exists ws ds,
           s = chr ")" :: ws ++ ds ++ rest m
           /\ ds <> [] /\ forallb isDigit ds = true
           /\ forallb isWhiteSpace ws = true
           /\ captures m = [[chr ")"]; ws ++ ds])
  /\ (forall intPart fracPart behind,
         forallb isDigit intPart = true ->
         forallb isDigit fracPart = true ->
         fracPart <> [] ->
         replace digitsBeforeParen timesBetween
                 (intPart ++ chr "." :: fracPart ++ chr "(" :: behind)
         = intPart ++ chr "." :: fracPart ++ lit " * ("
           ++ replace digitsBeforeParen timesBetween behind)
  /\ preprocessExpression (lit "2.5(3)") = lit "2.5 * (3)".
Proof.
  split; [exact digitsBeforeParen_In|].
  split; [exact digitsAfterParen_In|].
  split; [exact replace_decimal_before_paren|]. reflexivity.
Qed.

Lemma C7_witness :
  forallb isDigit (lit "2") = true
  /\ forallb isDigit (lit "5") = true
  /\ lit "5" <> []
  /\ replace digitsBeforeParen timesBetween
             (lit "2" ++ chr "." :: lit "5" ++ chr "(" :: lit "3)")
     = lit "2" ++ chr "." :: lit "5" ++ lit " * ("
       ++ replace digitsBeforeParen timesBetween (lit "3)").
Proof.
  split; [reflexivity|]. split; [reflexivity|]. split; [discriminate|].
  apply (proj1 (proj2 (proj2 C7_digit_runs_next_to_parenthesis))
               (lit "2") (lit "5") (lit "3)")).
  - reflexivity.
  - reflexivity.
  - discriminate.
Defined.

(** C9. [parseExpression] returns a tree exactly when the parser returns a
    node and the converter returns that tree for it, and returns [null] in
    every other case: whatever the parser or the converter throws is
    caught.  When the parser returns an operator node with one operand,
    the result is [null]. *)
Theorem C9_parseExpression_total {V : Type} `{ToString V}
        (parse : jsstring -> Result (MathNode V)) (expression : jsstring) :
  (forall t,
      fst (parseExpression parse expression) = Some t
      <-> exists node, parse expression = Return node
                       /\ convertToTree node false = Return t)
  /\ (fst (parseExpression parse expression) = None
      <-> (exists e, parse expression = Throw e)
          \/ exists node e, parse expression = Return node
                            /\ convertToTree node false = Throw e)
  /\ (forall op operand,
         parse expression = Return (OperatorNode op (Some [operand])) ->
         fst (parseExpression parse expression) = None).
Proof.
  unfold parseExpression. split; [|split].
  - intros t. destruct (parse expression) as [node|e]; simpl.
    + destruct (convertToTree node false) as [t'|e] eqn:E; simpl; split.
      * intros [= <-]. now exists node.
      * intros (node' & [= <-] & Ht). congruence.
      * discriminate.
      * intros (node' & [= <-] & Ht). congruence.
    + split; [discriminate|]. intros (node & Hn & _). discriminate.
  - destruct (parse expression) as [node|e]; simpl.
    + destruct (convertToTree node false) as [t'|e] eqn:E; simpl; split.
      * discriminate.
      * intros [(e & He)|(node' & e & [= <-] & Ht)]; congruence.
      * intros _. right. now exists node, e.
      * reflexivity.
    + split; [|reflexivity]. intros _. left. now exists e.
  - intros op operand ->.
    destruct (convert_operator_short op [operand] false) as (e & He).
    + simpl; lia.
    + cbn [bind]. now rewrite He.
Qed.

Lemma C9_witness :
  Reference.parse (lit "-5")
  = Return (OperatorNode (lit "-") (Some [number 5]))
  /\ fst (parseExpression Reference.parse (lit "-5")) = None.
Proof.
  split; [reflexivity|].
  apply (proj2 (proj2 (C9_parseExpression_total Reference.parse (lit "-5")))
               (lit "-") (number 5)).
  reflexivity.
Defined.

(** C10. In a tree the converter produces, below a node whose
    [isSubExpression] flag is set every node has the flag set. *)
Theorem C10_flag_downward {V : Type} `{ToString V}
        (node : MathNode V) (flag : bool) (t : TreeNode) :
  convertToTree node flag = Return t ->
  forall x, In x (nodes t) ->
            isSubExpression x = true ->
            forall y, In y (nodes x) -> isSubExpression y = true.
Proof.
  intros Ht x Hx Hflag y Hy.
  pose proof (convert_flagDownward _ _ _ Ht) as Hd.
  apply (proj1 (forallb_forall _ _) Hd) in Hx.
  unfold flagDownward in Hx. rewrite Hflag in Hx.
  now apply (proj1 (forallb_forall _ _) Hx).
Qed.

Lemma C10_witness :
  convertToTree scenario2Node false = Return scenario2Tree
  /\ In (mkTreeNode (lit "+")
           (Some (leaf "3" true)) (Some (leaf "4" true)) true)
        (nodes scenario2Tree)
  /\ In (leaf "4" true)
        (nodes (mkTreeNode (lit "+")
                  (Some (leaf "3" true)) (Some (leaf "4" true)) true))
  /\ isSubExpression (leaf "4" true) = true.
Proof.
  split; [reflexivity|]. split; [simpl; auto|]. split; [simpl; auto|].
  apply (C10_flag_downward scenario2Node false scenario2Tree)
    with (x := mkTreeNode (lit "+")
                 (Some (leaf "3" true)) (Some (leaf "4" true)) true).
  - reflexivity.
  - simpl; auto.
  - reflexivity.
  - simpl; auto.
Defined.

(** * Further properties *)

(** ** The normalizer on every text *)

Lemma span_forallb (p : char -> bool) (s : jsstring) :
  forallb p (fst (span p s)) = true.
Proof.
  induction s as [|c s IH]; [reflexivity|].
  simpl. destruct (p c) eqn:Hc; [|reflexivity].
  destruct (span p s) as [a r]. simpl in *. now rewrite Hc.
Qed.

Lemma space_not_digit (c : char) :
  isWhiteSpace c = true -> isDigit c = false.
Proof.
  intros Hw. destruct (isDigit c) eqn:Hd; [|reflexivity].
  apply digit_not_space in Hd. congruence.
Qed.

(** White space and then digits: the first match takes the longest run
    of each. *)
Lemma spaceThenDigits_exec (s : jsstring) :
  match fst (span isDigit (snd (span isWhiteSpace s))) with
  | [] => exec (Seq (Star isWhiteSpace) (Plus isDigit)) s = []
  | _ :: _ =>
      exists tl,
        exec (Seq (Star isWhiteSpace) (Plus isDigit)) s
        = mkMatch (fst (span isWhiteSpace s)
                   ++ fst (span isDigit (snd (span isWhiteSpace s))))
                  []
                  (snd (span isDigit (snd (span isWhiteSpace s))))
          :: tl
  end.
Proof.
  rewrite exec_seq.
  change (exec (Star isWhiteSpace) s) with (star isWhiteSpace s).
  destruct (star_span isWhiteSpace s) as (tail & -> & Htail).
  cbn [flat_map rest].
  assert (Htl : flat_map
                  (fun m1 => map (andThen m1) (exec (Plus isDigit) (rest m1)))
                  tail = []).
  { apply flat_map_nil. intros m Hm.
    apply (proj1 (Forall_forall _ _) Htail) in Hm.
    destruct Hm as (c & r & -> & Hc). rewrite exec_plus.
    now rewrite (space_not_digit _ Hc). }
  rewrite Htl, app_nil_r, exec_plus.
  destruct (snd (span isWhiteSpace s)) as [|x r]; [reflexivity|].
  cbn [span]. destruct (isDigit x) eqn:Hx; [|reflexivity].
  destruct (star_span isDigit r) as (tail' & -> & _).
  destruct (span isDigit r) as [ds r']. cbn [fst snd map].
  eexists. reflexivity.
Qed.

Lemma digitsAfterParen_exec (s : jsstring) :
  match scanDigitsAfterParen s with
  | Some m => exists tl, exec digitsAfterParen s = m :: tl
  | None => exec digitsAfterParen s = []
  end.
Proof.
  unfold digitsAfterParen, scanDigitsAfterParen.
  set (behind := Seq (Star isWhiteSpace) (Plus isDigit)).
  rewrite exec_seq.
  destruct s as [|c s]; [reflexivity|].
  cbn [exec class]. destruct (isChar ")" c) eqn:Hc; [|reflexivity].
  cbn [map flat_map capture rest matched captures].
  rewrite app_nil_r.
  pose proof (spaceThenDigits_exec s) as Hb. fold behind in Hb.
  change (exec (Group behind) s) with (map capture (exec behind s)).
  destruct (span isWhiteSpace s) as [ws r]. cbn [fst snd] in Hb.
  destruct (span isDigit r) as [ds r']. cbn [fst snd] in Hb.
  destruct ds as [|d ds].
  - now rewrite Hb.
  - destruct Hb as (tl & ->). cbn. eexists. reflexivity.
Qed.

Lemma substitute_timesBetween (x a b r : jsstring) :
  substitute timesBetween (mkMatch x [a; b] r) = a ++ lit " * " ++ b.
Proof.
  unfold substitute, timesBetween. cbn [flat_map nth pred captures].
  now rewrite app_nil_r.
Qed.

Lemma scanDigitsBeforeParen_form (s : jsstring) (m : Match) :
  scanDigitsBeforeParen s = Some m ->
  exists ds ws r,
    s = ds ++ ws ++ chr "(" :: r
    /\ m = mkMatch (ds ++ ws ++ [chr "("]) [ds; ws ++ [chr "("]] r
    /\ ds <> [] /\ forallb isDigit ds = true
    /\ forallb isWhiteSpace ws = true.
Proof.
  unfold scanDigitsBeforeParen.
  pose proof (span_app isDigit s) as Hs.
  pose proof (span_forallb isDigit s) as Hds.
  destruct (span isDigit s) as [ds r]. cbn [fst snd] in Hs, Hds.
  pose proof (span_app isWhiteSpace r) as Hr.
  pose proof (span_forallb isWhiteSpace r) as Hws.
  destruct (span isWhiteSpace r) as [ws r']. cbn [fst snd] in Hr, Hws.
  destruct ds as [|d ds]; [discriminate|].
  destruct r' as [|c r'']; [discriminate|].
  destruct (isChar "(" c) eqn:Hc; [|discriminate].
  apply N.eqb_eq in Hc. subst c.
  intros [= <-]. exists (d :: ds), ws, r''.
  repeat split; auto; [congruence | discriminate].
Qed.

Lemma scanDigitsAfterParen_form (s : jsstring) (m : Match) :
  scanDigitsAfterParen s = Some m ->
  exists ws ds r,
    s = chr ")" :: ws ++ ds ++ r
    /\ m = mkMatch (chr ")" :: ws ++ ds) [[chr ")"]; ws ++ ds] r
    /\ ds <> [] /\ forallb isDigit ds = true
    /\ forallb isWhiteSpace ws = true.
Proof.
  unfold scanDigitsAfterParen. destruct s as [|c s]; [discriminate|].
  destruct (isChar ")" c) eqn:Hc; [|discriminate].
  apply N.eqb_eq in Hc. subst c.
  pose proof (span_app isWhiteSpace s) as Hs.
  pose proof (span_forallb isWhiteSpace s) as Hws.
  destruct (span isWhiteSpace s) as [ws r]. cbn [fst snd] in Hs, Hws.
  pose proof (span_app isDigit r) as Hr.
  pose proof (span_forallb isDigit r) as Hds.
  destruct (span isDigit r) as [ds r']. cbn [fst snd] in Hr, Hds.
  destruct ds as [|d ds]; [discriminate|].
  intros [= <-]. exists ws, (d :: ds), r'.
  repeat split; auto; [congruence | discriminate].
Qed.

(** Rule 4 as a scan, like rule 3. *)
Lemma replace_digitsAfterParen (s : jsstring) :
  replace digitsAfterParen timesBetween s
  = match scanDigitsAfterParen s with
    | Some m =>
        substitute timesBetween m
        ++ replace digitsAfterParen timesBetween (rest m)
    | None =>
        match s with
        | c :: s' => c :: replace digitsAfterParen timesBetween s'
        | [] => []
        end
    end.
Proof.
  unfold replace. destruct s as [|c s]; [reflexivity|].
  cbn [replaceFrom]. pose proof (digitsAfterParen_exec (c :: s)) as Hex.
  destruct (scanDigitsAfterParen (c :: s)) as [m|] eqn:Hscan.
  - destruct Hex as (tl & ->).
    apply scanDigitsAfterParen_form in Hscan.
    destruct Hscan as (ws & ds & r & Hs & -> & _).
    injection Hs as -> ->. cbn [matched List.length rest].
    rewrite app_assoc. now rewrite replaceFrom_skip.
  - now rewrite Hex.
Qed.

(** Induction along the scan of rule 3, and of rule 4: the text and what
    the rule makes of it. *)
Lemma replace_digitsBeforeParen_ind (P : jsstring -> jsstring -> Prop) :
  P [] [] ->
  (forall c s out,
      scanDigitsBeforeParen (c :: s) = None ->
      P s out -> P (c :: s) (c :: out)) ->
  (forall ds ws r out,
      ds <> [] -> forallb isDigit ds = true ->
      forallb isWhiteSpace ws = true ->
      P r out ->
      P (ds ++ ws ++ chr "(" :: r)
        (ds ++ lit " * " ++ ws ++ chr "(" :: out)) ->
  forall s, P s (replace digitsBeforeParen timesBetween s).
Proof.
  intros Hnil Hkeep Hmatch s.
  remember (List.length s) as n eqn:Hn.
  revert s Hn. induction n as [n IH] using lt_wf_ind. intros s Hn.
  rewrite replace_digitsBeforeParen.
  destruct (scanDigitsBeforeParen s) as [m|] eqn:Hscan.
  - apply scanDigitsBeforeParen_form in Hscan.
    destruct Hscan as (ds & ws & r & -> & -> & Hne & Hds & Hws).
    rewrite substitute_timesBetween. cbn [rest].
    rewrite <- !app_assoc. cbn [app].
    apply Hmatch; auto.
    apply (IH (List.length r)); [|reflexivity].
    subst n. rewrite !length_app. simpl. lia.
  - destruct s as [|c s]; [exact Hnil|].
    apply Hkeep; [exact Hscan|].
    apply (IH (List.length s)); [|reflexivity]. subst n. simpl. lia.
Qed.

Lemma replace_digitsAfterParen_ind (P : jsstring -> jsstring -> Prop) :
  P [] [] ->
  (forall c s out,
      scanDigitsAfterParen (c :: s) = None ->
      P s out -> P (c :: s) (c :: out)) ->
  (forall ws ds r out,
      ds <> [] -> forallb isDigit ds = true ->
      forallb isWhiteSpace ws = true ->
      P r out ->
      P (chr ")" :: ws ++ ds ++ r)
        (chr ")" :: lit " * " ++ ws ++ ds ++ out)) ->
  forall s, P s (replace digitsAfterParen timesBetween s).
Proof.
  intros Hnil Hkeep Hmatch s.
  remember (List.length s) as n eqn:Hn.
  revert s Hn. induction n as [n IH] using lt_wf_ind. intros s Hn.
  rewrite replace_digitsAfterParen.
  destruct (scanDigitsAfterParen s) as [m|] eqn:Hscan.
  - apply scanDigitsAfterParen_form in Hscan.
    destruct Hscan as (ws & ds & r & -> & -> & Hne & Hds & Hws).
    rewrite substitute_timesBetween. cbn [rest].
    cbn [app]. rewrite <- !app_assoc.
    apply Hmatch; auto.
    apply (IH (List.length r)); [|reflexivity].
    subst n. simpl. rewrite !length_app. lia.
  - destruct s as [|c s]; [exact Hnil|].
    apply Hkeep; [exact Hscan|].
    apply (IH (List.length s)); [|reflexivity]. subst n. simpl. lia.
Qed.

Lemma dropWhile_cons (p : char -> bool) (c : char) (s : jsstring) :
  dropWhile p (c :: s) = if p c then dropWhile p s else c :: s.
Proof.
  unfold dropWhile. simpl. destruct (p c); [|reflexivity].
  now destruct (span p s).
Qed.

Lemma parenAhead_cons (c : char) (s : jsstring) :
  parenAhead (c :: s) = if isWhiteSpace c then parenAhead s else isChar "(" c.
Proof.
  unfold parenAhead. rewrite dropWhile_cons. now destruct (isWhiteSpace c).
Qed.

Lemma digitAhead_cons (c : char) (s : jsstring) :
  digitAhead (c :: s) = if isWhiteSpace c then digitAhead s else isDigit c.
Proof.
  unfold digitAhead. rewrite dropWhile_cons. now destruct (isWhiteSpace c).
Qed.

Lemma parenAhead_space (ws s : jsstring) :
  forallb isWhiteSpace ws = true -> parenAhead (ws ++ s) = parenAhead s.
Proof.
  intros Hws. induction ws as [|w ws IH]; [reflexivity|].
  simpl in Hws. apply andb_prop in Hws. destruct Hws as [Hw Hws].
  cbn [app]. rewrite parenAhead_cons, Hw. auto.
Qed.

Lemma digitAhead_space (ws s : jsstring) :
  forallb isWhiteSpace ws = true -> digitAhead (ws ++ s) = digitAhead s.
Proof.
  intros Hws. induction ws as [|w ws IH]; [reflexivity|].
  simpl in Hws. apply andb_prop in Hws. destruct Hws as [Hw Hws].
  cbn [app]. rewrite digitAhead_cons, Hw. auto.
Qed.

Lemma parenAhead_digit (d : char) (s : jsstring) :
  isDigit d = true -> parenAhead (d :: s) = false.
Proof.
  intros Hd. rewrite parenAhead_cons, (digit_not_space _ Hd).
  now apply digit_not_paren.
Qed.

Lemma digitAhead_digit (d : char) (s : jsstring) :
  isDigit d = true -> digitAhead (d :: s) = true.
Proof.
  intros Hd. now rewrite digitAhead_cons, (digit_not_space _ Hd).
Qed.

Lemma noDigitBeforeParen_skip (c : char) (s : jsstring) :
  isDigit c = false -> noDigitBeforeParen (c :: s) = noDigitBeforeParen s.
Proof. intros Hc. simpl. now rewrite Hc. Qed.

Lemma noDigitBeforeParen_space (ws s : jsstring) :
  forallb isWhiteSpace ws = true ->
  noDigitBeforeParen (ws ++ s) = noDigitBeforeParen s.
Proof.
  intros Hws. induction ws as [|w ws IH]; [reflexivity|].
  simpl in Hws. apply andb_prop in Hws. destruct Hws as [Hw Hws].
  cbn [app]. rewrite noDigitBeforeParen_skip; auto using space_not_digit.
Qed.

Lemma noDigitBeforeParen_digits (ds s : jsstring) :
  ds <> [] -> forallb isDigit ds = true ->
  noDigitBeforeParen (ds ++ s) = negb (parenAhead s) && noDigitBeforeParen s.
Proof.
  intros Hne Hds. induction ds as [|d ds IH]; [contradiction|].
  simpl in Hds. apply andb_prop in Hds. destruct Hds as [Hd Hds].
  cbn [app noDigitBeforeParen]. rewrite Hd. cbn [andb].
  destruct ds as [|d' ds'].
  - reflexivity.
  - rewrite IH; [|discriminate|exact Hds].
    cbn [app]. simpl in Hds. apply andb_prop in Hds.
    rewrite (parenAhead_digit d' _ (proj1 Hds)). reflexivity.
Qed.

Lemma paren_not_space (c : char) :
  isChar ")" c = true -> isWhiteSpace c = false.
Proof. intros Hc. apply N.eqb_eq in Hc. now subst. Qed.

Lemma digit_not_closing (c : char) :
  isDigit c = true -> isChar ")" c = false.
Proof.
  unfold isDigit, isChar. simpl.
  rewrite andb_true_iff, !N.leb_le, N.eqb_neq. lia.
Qed.

Lemma space_not_closing (c : char) :
  isWhiteSpace c = true -> isChar ")" c = false.
Proof.
  intros Hw. destruct (isChar ")" c) eqn:Hc; [|reflexivity].
  apply paren_not_space in Hc. congruence.
Qed.

Lemma noDigitAfterParen_skip (c : char) (s : jsstring) :
  isChar ")" c = false -> noDigitAfterParen (c :: s) = noDigitAfterParen s.
Proof. intros Hc. simpl. now rewrite Hc. Qed.

Lemma noDigitAfterParen_skips (a s : jsstring) :
  forallb (fun c => negb (isChar ")" c)) a = true ->
  noDigitAfterParen (a ++ s) = noDigitAfterParen s.
Proof.
  intros Ha. induction a as [|c a IH]; [reflexivity|].
  simpl in Ha. apply andb_prop in Ha. destruct Ha as [Hc Ha].
  cbn [app]. rewrite noDigitAfterParen_skip; auto.
  now apply negb_true_iff.
Qed.

Lemma digits_no_closing (ds : jsstring) :
  forallb isDigit ds = true ->
  forallb (fun c => negb (isChar ")" c)) ds = true.
Proof.
  intros Hds. apply forallb_forall. intros c Hc.
  apply (proj1 (forallb_forall _ _) Hds) in Hc.
  now rewrite (digit_not_closing _ Hc).
Qed.

Lemma space_no_closing (ws : jsstring) :
  forallb isWhiteSpace ws = true ->
  forallb (fun c => negb (isChar ")" c)) ws = true.
Proof.
  intros Hws. apply forallb_forall. intros c Hc.
  apply (proj1 (forallb_forall _ _) Hws) in Hc.
  now rewrite (space_not_closing _ Hc).
Qed.

(** Rules 3 and 4 keep the white space a text starts with and the
    character behind it. *)
Lemma parenAhead_digitsBeforeParen (s : jsstring) :
  parenAhead (replace digitsBeforeParen timesBetween s) = parenAhead s.
Proof.
  apply (replace_digitsBeforeParen_ind
           (fun s out => parenAhead out = parenAhead s)).
  - reflexivity.
  - intros c s' out _ IH. rewrite !parenAhead_cons, IH. reflexivity.
  - intros [|d ds] ws r out Hne Hds _ _; [contradiction|].
    simpl in Hds. apply andb_prop in Hds. destruct Hds as [Hd _].
    cbn [app]. now rewrite !(parenAhead_digit d _ Hd).
Qed.

Lemma ahead_digitsAfterParen (s : jsstring) :
  parenAhead (replace digitsAfterParen timesBetween s) = parenAhead s
  /\ digitAhead (replace digitsAfterParen timesBetween s) = digitAhead s.
Proof.
  apply (replace_digitsAfterParen_ind
           (fun s out => parenAhead out = parenAhead s
                         /\ digitAhead out = digitAhead s)).
  - auto.
  - intros c s' out _ [IHp IHd].
    rewrite !parenAhead_cons, !digitAhead_cons, IHp, IHd. auto.
  - intros ws ds r out _ _ _ _.
    rewrite !parenAhead_cons, !digitAhead_cons. auto.
Qed.

Lemma span_nil_head (p : char -> bool) (s : jsstring) :
  fst (span p s) = [] ->
  match s with c :: _ => p c = false | [] => True end.
Proof.
  destruct s as [|c s]; [auto|]. simpl.
  destruct (p c); [|reflexivity]. now destruct (span p s).
Qed.

Lemma scanDigitsBeforeParen_None_digit (c : char) (s : jsstring) :
  isDigit c = true ->
  scanDigitsBeforeParen (c :: s) = None -> parenAhead s = false.
Proof.
  intros Hd. unfold scanDigitsBeforeParen. cbn [span]. rewrite Hd.
  pose proof (span_app isDigit s) as Hs.
  pose proof (span_forallb isDigit s) as Hds.
  destruct (span isDigit s) as [[|d ds] r]; cbn [fst snd] in Hs, Hds.
  - cbn [app] in Hs. subst r. unfold parenAhead, dropWhile.
    destruct (span isWhiteSpace s) as [ws [|c' r']]; cbn [snd]; [auto|].
    destruct (isChar "(" c'); [discriminate | auto].
  - intros _. rewrite Hs. cbn [app]. apply parenAhead_digit.
    simpl in Hds. now apply andb_prop in Hds.
Qed.

Lemma scanDigitsAfterParen_None_paren (c : char) (s : jsstring) :
  isChar ")" c = true ->
  scanDigitsAfterParen (c :: s) = None -> digitAhead s = false.
Proof.
  intros Hc. unfold scanDigitsAfterParen. rewrite Hc.
  unfold digitAhead, dropWhile.
  destruct (span isWhiteSpace s) as [ws r]. cbn [snd].
  pose proof (span_nil_head isDigit r) as Hhead.
  destruct (span isDigit r) as [[|d ds] r']; [|discriminate].
  intros _. specialize (Hhead eq_refl). now destruct r.
Qed.

(** After rule 3 no digit stands before an opening parenthesis. *)
Lemma noDigitBeforeParen_digitsBeforeParen (s : jsstring) :
  noDigitBeforeParen (replace digitsBeforeParen timesBetween s) = true.
Proof.
  apply (replace_digitsBeforeParen_ind
           (fun s out => parenAhead out = parenAhead s
                         /\ noDigitBeforeParen out = true)).
  - auto.
  - intros c s' out Hscan [IHa IHn]. split.
    + now rewrite !parenAhead_cons, IHa.
    + cbn [noDigitBeforeParen]. rewrite IHn, IHa, andb_true_r.
      destruct (isDigit c) eqn:Hd; [|reflexivity].
      now rewrite (scanDigitsBeforeParen_None_digit c s' Hd Hscan).
  - intros ds ws r out Hne Hds Hws [IHa IHn]. split.
    + destruct ds as [|d ds]; [contradiction|].
      simpl in Hds. apply andb_prop in Hds. destruct Hds as [Hd _].
      cbn [app]. now rewrite !(parenAhead_digit d _ Hd).
    + rewrite (noDigitBeforeParen_digits ds _ Hne Hds).
      change (lit " * ") with [chr " "; chr "*"; chr " "]. cbn [app].
      rewrite !parenAhead_cons. change (isWhiteSpace (chr " ")) with true.
      change (isWhiteSpace (chr "*")) with false.
      change (isChar "(" (chr "*")) with false. cbn [negb andb].
      rewrite !noDigitBeforeParen_skip by reflexivity.
      rewrite (noDigitBeforeParen_space ws _ Hws).
      now rewrite noDigitBeforeParen_skip.
Qed.

(** After rule 4 no closing parenthesis stands before a digit, and rule 4
    puts no digit before an opening parenthesis. *)
Lemma noDigitAfterParen_digitsAfterParen (s : jsstring) :
  noDigitAfterParen (replace digitsAfterParen timesBetween s) = true.
Proof.
  apply (replace_digitsAfterParen_ind
           (fun s out => digitAhead out = digitAhead s
                         /\ noDigitAfterParen out = true)).
  - auto.
  - intros c s' out Hscan [IHa IHn]. split.
    + now rewrite !digitAhead_cons, IHa.
    + cbn [noDigitAfterParen]. rewrite IHn, IHa, andb_true_r.
      destruct (isChar ")" c) eqn:Hc; [|reflexivity].
      now rewrite (scanDigitsAfterParen_None_paren c s' Hc Hscan).
  - intros ws ds r out Hne Hds Hws [IHa IHn]. split.
    + now rewrite !digitAhead_cons.
    + cbn [noDigitAfterParen].
      change (lit " * ") with [chr " "; chr "*"; chr " "]. cbn [app].
      rewrite !digitAhead_cons. change (isWhiteSpace (chr " ")) with true.
      change (isWhiteSpace (chr "*")) with false.
      change (isDigit (chr "*")) with false.
      rewrite andb_false_r. cbn [negb andb].
      rewrite !noDigitAfterParen_skip by reflexivity.
      rewrite (noDigitAfterParen_skips ws _ (space_no_closing ws Hws)).
      now rewrite (noDigitAfterParen_skips ds _ (digits_no_closing ds Hds)).
Qed.

Lemma noDigitBeforeParen_digitsAfterParen (s : jsstring) :
  noDigitBeforeParen s = true ->
  noDigitBeforeParen (replace digitsAfterParen timesBetween s) = true.
Proof.
  apply (replace_digitsAfterParen_ind
           (fun s out => parenAhead out = parenAhead s
                         /\ (noDigitBeforeParen s = true ->
                             noDigitBeforeParen out = true))).
  - auto.
  - intros c s' out _ [IHa IHn]. split.
    + now rewrite !parenAhead_cons, IHa.
    + cbn [noDigitBeforeParen]. rewrite IHa. intros Hn.
      apply andb_prop in Hn. destruct Hn as [-> Hn]. now apply IHn.
  - intros ws ds r out Hne Hds Hws [IHa IHn]. split.
    + now rewrite !parenAhead_cons.
    + rewrite noDigitBeforeParen_skip by reflexivity.
      rewrite (noDigitBeforeParen_space ws _ Hws).
      rewrite (noDigitBeforeParen_digits ds _ Hne Hds).
      intros Hn. apply andb_prop in Hn. destruct Hn as [Ha Hn].
      change (lit " * ") with [chr " "; chr "*"; chr " "]. cbn [app].
      rewrite !noDigitBeforeParen_skip by reflexivity.
      rewrite (noDigitBeforeParen_space ws _ Hws).
      rewrite (noDigitBeforeParen_digits ds _ Hne Hds).
      now rewrite IHa, Ha, (IHn Hn).
Qed.

(** Where rule 3, or rule 4, finds nothing, it changes nothing. *)
Lemma digitsBeforeParen_fixed (s : jsstring) :
  noDigitBeforeParen s = true ->
  replace digitsBeforeParen timesBetween s = s.
Proof.
  apply (replace_digitsBeforeParen_ind
           (fun s out => noDigitBeforeParen s = true -> out = s)).
  - auto.
  - intros c s' out _ IH Hn. cbn [noDigitBeforeParen] in Hn.
    apply andb_prop in Hn. f_equal. now apply IH.
  - intros ds ws r out Hne Hds Hws _.
    rewrite (noDigitBeforeParen_digits ds _ Hne Hds).
    rewrite (parenAhead_space ws _ Hws), parenAhead_cons.
    discriminate.
Qed.

Lemma digitsAfterParen_fixed (s : jsstring) :
  noDigitAfterParen s = true ->
  replace digitsAfterParen timesBetween s = s.
Proof.
  apply (replace_digitsAfterParen_ind
           (fun s out => noDigitAfterParen s = true -> out = s)).
  - auto.
  - intros c s' out _ IH Hn. cbn [noDigitAfterParen] in Hn.
    apply andb_prop in Hn. f_equal. now apply IH.
  - intros ws ds r out Hne Hds Hws _. cbn [noDigitAfterParen].
    rewrite (digitAhead_space ws _ Hws).
    destruct ds as [|d ds]; [contradiction|].
    simpl in Hds. apply andb_prop in Hds. destruct Hds as [Hd _].
    cbn [app]. rewrite (digitAhead_digit d _ Hd). discriminate.
Qed.

(** Rules 3 and 4 write characters of the text, spaces and asterisks. *)
Lemma forallb_digitsBeforeParen (q : char -> bool) (s : jsstring) :
  q (chr " ") = true -> q (chr "*") = true ->
  forallb q s = true ->
  forallb q (replace digitsBeforeParen timesBetween s) = true.
Proof.
  intros Hsp Hst.
  apply (replace_digitsBeforeParen_ind
           (fun s out => forallb q s = true -> forallb q out = true)).
  - auto.
  - intros c s' out _ IH Hq. simpl in *.
    apply andb_prop in Hq. destruct Hq as [-> Hq]. now apply IH.
  - intros ds ws r out _ _ _ IH.
    change (lit " * ") with [chr " "; chr "*"; chr " "]. cbn [app].
    rewrite !forallb_app. cbn [forallb]. rewrite ?forallb_app.
    cbn [forallb]. rewrite Hsp, Hst. cbn [andb].
    intros Hq. apply andb_prop in Hq. destruct Hq as [-> Hq].
    apply andb_prop in Hq. destruct Hq as [-> Hq].
    apply andb_prop in Hq. destruct Hq as [-> Hq]. now apply IH.
Qed.

Lemma forallb_digitsAfterParen (q : char -> bool) (s : jsstring) :
  q (chr " ") = true -> q (chr "*") = true ->
  forallb q s = true ->
  forallb q (replace digitsAfterParen timesBetween s) = true.
Proof.
  intros Hsp Hst.
  apply (replace_digitsAfterParen_ind
           (fun s out => forallb q s = true -> forallb q out = true)).
  - auto.
  - intros c s' out _ IH Hq. simpl in *.
    apply andb_prop in Hq. destruct Hq as [-> Hq]. now apply IH.
  - intros ws ds r out _ _ _ IH.
    change (lit " * ") with [chr " "; chr "*"; chr " "].
    cbn [forallb app]. rewrite !forallb_app. cbn [forallb].
    rewrite ?forallb_app. rewrite Hsp, Hst. cbn [andb].
    intros Hq. apply andb_prop in Hq. destruct Hq as [-> Hq].
    apply andb_prop in Hq. destruct Hq as [-> Hq].
    apply andb_prop in Hq. destruct Hq as [-> Hq]. now apply IH.
Qed.

Lemma brackets_then (c : char) :
  (fun c => if isChar "]" c then chr ")" else c)
    ((fun c => if isChar "}" c then chr ")" else c)
       ((fun c => if isChar "[" c then chr "(" else c)
          ((fun c => if isChar "{" c then chr "(" else c) c)))
  = normalizeBracket c.
Proof.
  unfold normalizeBracket, isChar. cbv beta.
  destruct (N.eqb_spec c (chr "{")) as [->|H1]; [reflexivity|].
  destruct (N.eqb_spec c (chr "[")) as [->|H2]; [reflexivity|].
  destruct (N.eqb_spec c (chr "}")) as [->|H3]; [reflexivity|].
  destruct (N.eqb_spec c (chr "]")) as [->|H4]; reflexivity.
Qed.

(** The normalizer as three passes: a character map for the brackets,
    the two operator rules, and a character map for the dash. *)
Lemma preprocess_passes (s : jsstring) :
  preprocessExpression s
  = map (fun c => if N.eqb enDash c then chr "-" else c)
        (replace digitsAfterParen timesBetween
           (replace digitsBeforeParen timesBetween
              (map normalizeBracket s))).
Proof.
  unfold preprocessExpression.
  change (lit "(") with [chr "("]. change (lit ")") with [chr ")"].
  change (lit "-") with [chr "-"].
  rewrite !replace_class, replace_group_class, !map_map.
  do 3 f_equal. apply map_ext. exact brackets_then.
Qed.

Section ClassPreservingMap.

Variable f : char -> char.
Hypothesis f_digit : forall c, isDigit (f c) = isDigit c.
Hypothesis f_space : forall c, isWhiteSpace (f c) = isWhiteSpace c.
Hypothesis f_opening : forall c, isChar "(" (f c) = isChar "(" c.
Hypothesis f_closing : forall c, isChar ")" (f c) = isChar ")" c.

Lemma parenAhead_map (s : jsstring) : parenAhead (map f s) = parenAhead s.
Proof.
  induction s as [|c s IH]; [reflexivity|].
  cbn [map]. now rewrite !parenAhead_cons, f_space, f_opening, IH.
Qed.

Lemma digitAhead_map (s : jsstring) : digitAhead (map f s) = digitAhead s.
Proof.
  induction s as [|c s IH]; [reflexivity|].
  cbn [map]. now rewrite !digitAhead_cons, f_space, f_digit, IH.
Qed.

Lemma noDigitBeforeParen_map (s : jsstring) :
  noDigitBeforeParen (map f s) = noDigitBeforeParen s.
Proof.
  induction s as [|c s IH]; [reflexivity|].
  cbn [map noDigitBeforeParen]. now rewrite f_digit, parenAhead_map, IH.
Qed.

Lemma noDigitAfterParen_map (s : jsstring) :
  noDigitAfterParen (map f s) = noDigitAfterParen s.
Proof.
  induction s as [|c s IH]; [reflexivity|].
  cbn [map noDigitAfterParen]. now rewrite f_closing, digitAhead_map, IH.
Qed.

End ClassPreservingMap.

Lemma dash_classes (c : char) :
  let d := if N.eqb enDash c then chr "-" else c in
  isDigit d = isDigit c /\ isWhiteSpace d = isWhiteSpace c
  /\ isChar "(" d = isChar "(" c /\ isChar ")" d = isChar ")" c.
Proof.
  cbv zeta. destruct (N.eqb_spec enDash c) as [<-|_]; repeat split.
Qed.

Lemma isPlain_normalizeBracket (c : char) :
  (isPlain (normalizeBracket c) || N.eqb enDash (normalizeBracket c)) = true.
Proof.
  unfold normalizeBracket, isPlain, isChar.
  destruct (N.eqb_spec c (chr "{")) as [->|H1]; [reflexivity|].
  destruct (N.eqb_spec c (chr "[")) as [->|H2]; [reflexivity|].
  destruct (N.eqb_spec c (chr "}")) as [->|H3]; [reflexivity|].
  destruct (N.eqb_spec c (chr "]")) as [->|H4]; [reflexivity|].
  cbn [orb].
  destruct (N.eqb_spec c (chr "{")); [contradiction|].
  destruct (N.eqb_spec c (chr "[")); [contradiction|].
  destruct (N.eqb_spec c (chr "}")); [contradiction|].
  destruct (N.eqb_spec c (chr "]")); [contradiction|].
  cbn [orb]. now destruct (N.eqb enDash c).
Qed.

Lemma isPlain_fixed (c : char) :
  isPlain c = true ->
  normalizeBracket c = c /\ (if N.eqb enDash c then chr "-" else c) = c.
Proof.
  unfold isPlain, normalizeBracket. rewrite negb_true_iff, !orb_false_iff.
  intros ((((-> & ->) & ->) & ->) & ->). auto.
Qed.

(** Whatever the text, what the normalizer yields is in normal form. *)
Lemma preprocess_isNormal (s : jsstring) :
  isNormal (preprocessExpression s) = true.
Proof.
  rewrite preprocess_passes. unfold isNormal.
  set (dash := fun c => if N.eqb enDash c then chr "-" else c).
  pose proof (fun c => proj1 (dash_classes c)) as Hd.
  pose proof (fun c => proj1 (proj2 (dash_classes c))) as Hw.
  pose proof (fun c => proj1 (proj2 (proj2 (dash_classes c)))) as Ho.
  pose proof (fun c => proj2 (proj2 (proj2 (dash_classes c)))) as Hc.
  cbv zeta in Hd, Hw, Ho, Hc. fold dash in Hd, Hw, Ho, Hc.
  rewrite (noDigitBeforeParen_map dash Hd Hw Ho).
  rewrite (noDigitAfterParen_map dash Hd Hw Hc).
  rewrite noDigitAfterParen_digitsAfterParen.
  rewrite noDigitBeforeParen_digitsAfterParen
    by apply noDigitBeforeParen_digitsBeforeParen.
  rewrite !andb_true_r.
  apply forallb_forall. intros d Hin.
  apply in_map_iff in Hin. destruct Hin as (c & <- & Hin).
  assert (Hq : forallb (fun c => isPlain c || N.eqb enDash c)
                 (replace digitsAfterParen timesBetween
                    (replace digitsBeforeParen timesBetween
                       (map normalizeBracket s))) = true).
  { apply forallb_digitsAfterParen; [reflexivity..|].
    apply forallb_digitsBeforeParen; [reflexivity..|].
    apply forallb_forall. intros x Hx.
    apply in_map_iff in Hx. destruct Hx as (y & <- & _).
    apply isPlain_normalizeBracket. }
  apply (proj1 (forallb_forall _ _) Hq) in Hin.
  unfold dash. destruct (N.eqb enDash c); [reflexivity|].
  now rewrite orb_false_r in Hin.
Qed.

(** A text in normal form is left as it is. *)
Lemma preprocess_fixed_iff (s : jsstring) :
  preprocessExpression s = s <-> isNormal s = true.
Proof.
  split.
  - intros Hfix. rewrite <- Hfix. apply preprocess_isNormal.
  - unfold isNormal. intros Hn.
    apply andb_prop in Hn. destruct Hn as [Hn Ha].
    apply andb_prop in Hn. destruct Hn as [Hp Hb].
    rewrite preprocess_passes.
    assert (Hmap : map normalizeBracket s = s).
    { apply map_fixed. intros c Hc.
      apply (proj1 (forallb_forall _ _) Hp) in Hc.
      now apply isPlain_fixed. }
    rewrite Hmap, (digitsBeforeParen_fixed s Hb), (digitsAfterParen_fixed s Ha).
    apply map_fixed. intros c Hc.
    apply (proj1 (forallb_forall _ _) Hp) in Hc.
    now apply isPlain_fixed.
Qed.


(** ** The tree converter on every node graph *)

Section ConverterMore.

Context {V : Type} `{ToString V}.

Lemma convert_eraseFlags (n : MathNode V) :
  forall f1 f2,
    mapResult eraseFlags (convertToTree n f1)
    = mapResult eraseFlags (convertToTree n f2).
Proof.
  induction n as [op|op args IH|v| |c IH|k] using MathNode_ind;
    intros f1 f2.
  - reflexivity.
  - destruct args as [|a0 [|a1 others]].
    + reflexivity.
    + inversion IH as [|? ? IH0 _]; subst. specialize (IH0 f1 f2).
      cbn [convertToTree].
      destruct (convertToTree a0 f1), (convertToTree a0 f2);
        simpl in *; congruence.
    + inversion IH as [|? ? IH0 IH']; subst.
      inversion IH' as [|? ? IH1 _]; subst.
      specialize (IH0 f1 f2). specialize (IH1 f1 f2).
      cbn [convertToTree].
      destruct (convertToTree a0 f1), (convertToTree a0 f2);
        simpl in *; try congruence.
      destruct (convertToTree a1 f1), (convertToTree a1 f2);
        simpl in *; congruence.
  - simpl. destruct (toString v); reflexivity.
  - reflexivity.
  - simpl. apply IH.
  - reflexivity.
Qed.

Lemma convert_labels (n : MathNode V) :
  forall flag t,
    convertToTree n flag = Return t ->
    map value (nodes t) = labels (visits n).
Proof.
  induction n as [op|op args IH|v| |c IH|k] using MathNode_ind;
    intros flag t Ht.
  - injection Ht as <-. reflexivity.
  - apply convert_operator_inv in Ht.
    destruct Ht as (a0 & a1 & others & l & r & -> & Hl & Hr & ->).
    inversion IH as [|? ? IH0 IH']; subst.
    inversion IH' as [|? ? IH1 _]; subst.
    cbn [nodes left right visits map value].
    unfold labels. cbn [flat_map labelOf app].
    rewrite flat_map_app, map_app.
    fold (labels (visits a0)). fold (labels (visits a1)).
    now rewrite (IH0 _ _ Hl), (IH1 _ _ Hr).
  - apply convert_constant_inv in Ht. destruct Ht as (s & Hs & ->).
    unfold labels. simpl. now rewrite Hs.
  - discriminate.
  - simpl in Ht. unfold labels. cbn [visits flat_map labelOf app].
    now apply (IH true).
  - discriminate.
Qed.

Lemma convert_root_flag (n : MathNode V) :
  forall flag t,
    convertToTree n flag = Return t ->
    isSubExpression t = flag || isGrouping (VNode n).
Proof.
  induction n as [op|op args IH|v| |c IH|k] using MathNode_ind;
    intros flag t Ht.
  - injection Ht as <-. simpl. now rewrite orb_false_r.
  - apply convert_operator_inv in Ht.
    destruct Ht as (a0 & a1 & others & l & r & -> & Hl & Hr & ->).
    simpl. now rewrite orb_false_r.
  - apply convert_constant_inv in Ht. destruct Ht as (s & Hs & ->).
    simpl. now rewrite orb_false_r.
  - discriminate.
  - simpl in Ht. rewrite (IH _ _ Ht). simpl. now rewrite orb_true_r.
  - discriminate.
Qed.

Lemma convert_false_flags (n : MathNode V) :
  forall t,
    convertToTree n false = Return t ->
    existsb isSubExpression (nodes t) = existsb isGrouping (visits n).
Proof.
  induction n as [op|op args IH|v| |c IH|k] using MathNode_ind;
    intros t Ht.
  - injection Ht as <-. reflexivity.
  - apply convert_operator_inv in Ht.
    destruct Ht as (a0 & a1 & others & l & r & -> & Hl & Hr & ->).
    inversion IH as [|? ? IH0 IH']; subst.
    inversion IH' as [|? ? IH1 _]; subst.
    cbn [nodes left right visits existsb isSubExpression isGrouping orb].
    now rewrite !existsb_app, (IH0 _ Hl), (IH1 _ Hr).
  - apply convert_constant_inv in Ht. destruct Ht as (s & Hs & ->).
    reflexivity.
  - discriminate.
  - simpl in Ht. cbn [visits existsb isGrouping orb].
    pose proof (convert_root_flag c true t Ht) as Hroot.
    destruct t as [v l r f]. cbn [nodes existsb]. simpl in Hroot.
    now rewrite Hroot.
  - discriminate.
Qed.

(** Every node of a produced tree has no child or two; the nodes are one
    more than twice those that have children, and one more than the
    parent-child links. *)
Lemma convert_full_binary (n : MathNode V) :
  forall flag t,
    convertToTree n flag = Return t ->
    forallb (fun x => Nat.eqb (List.length (childrenOf x)) 0
                      || Nat.eqb (List.length (childrenOf x)) 2)
            (nodes t) = true
    /\ List.length (nodes t)
       = 2 * List.length (filter hasChildren (nodes t)) + 1
    /\ List.length (nodes t)
       = S (List.length (flat_map childrenOf (nodes t))).
Proof.
  induction n as [op|op args IH|v| |c IH|k] using MathNode_ind;
    intros flag t Ht.
  - injection Ht as <-. simpl. auto.
  - apply convert_operator_inv in Ht.
    destruct Ht as (a0 & a1 & others & l & r & -> & Hl & Hr & ->).
    inversion IH as [|? ? IH0 IH']; subst.
    inversion IH' as [|? ? IH1 _]; subst.
    destruct (IH0 _ _ Hl) as (Hl1 & Hl2 & Hl3).
    destruct (IH1 _ _ Hr) as (Hr1 & Hr2 & Hr3).
    cbn [nodes left right forallb filter flat_map].
    change (childrenOf (mkTreeNode op (Some l) (Some r) flag)) with [l; r].
    change (hasChildren (mkTreeNode op (Some l) (Some r) flag)) with true.
    cbn [List.length Nat.eqb orb andb app].
    rewrite forallb_app, filter_app, flat_map_app, ?length_app, Hl1, Hr1.
    cbn [List.length]. rewrite ?length_app.
    repeat split; lia.
  - apply convert_constant_inv in Ht. destruct Ht as (s & Hs & ->).
    simpl. auto.
  - discriminate.
  - simpl in Ht. eauto.
  - discriminate.
Qed.

End ConverterMore.

(** ** What the normalizer writes *)

Section Inserted.

Variable q : char -> bool.

Lemma inserted_refl (s : jsstring) : insertedInto q s s.
Proof. induction s; constructor; auto. Qed.

Lemma inserted_app (a b s t : jsstring) :
  insertedInto q a b -> insertedInto q s t ->
  insertedInto q (a ++ s) (b ++ t).
Proof. induction 1; intros Hst; cbn [app]; try constructor; auto. Qed.

Lemma inserted_prefix (a s t : jsstring) :
  forallb q a = true -> insertedInto q s t -> insertedInto q s (a ++ t).
Proof.
  intros Ha Hst. induction a as [|c a IH]; [exact Hst|].
  simpl in Ha. apply andb_prop in Ha. destruct Ha as [Hc Ha].
  cbn [app]. constructor; auto.
Qed.

Lemma inserted_trans (s t u : jsstring) :
  insertedInto q s t -> insertedInto q t u -> insertedInto q s u.
Proof.
  intros Hst Htu. revert s Hst.
  induction Htu as [|c t u Htu IH|c t u Hc Htu IH]; intros s Hst.
  - exact Hst.
  - inversion Hst; subst.
    + constructor. auto.
    + constructor; auto.
  - constructor; auto.
Qed.

Lemma inserted_map (f : char -> char) (s t : jsstring) :
  (forall c, q c = true -> q (f c) = true) ->
  insertedInto q s t -> insertedInto q (map f s) (map f t).
Proof.
  intros Hf. induction 1; cbn [map]; constructor; auto.
Qed.

End Inserted.

Lemma inserted_digitsBeforeParen (s : jsstring) :
  insertedInto isSpaceOrTimes s (replace digitsBeforeParen timesBetween s).
Proof.
  apply (replace_digitsBeforeParen_ind (insertedInto isSpaceOrTimes)).
  - constructor.
  - intros c s' out _ IH. now constructor.
  - intros ds ws r out _ _ _ IH.
    apply inserted_app; [apply inserted_refl|].
    apply inserted_prefix; [reflexivity|].
    apply inserted_app; [apply inserted_refl|]. now constructor.
Qed.

Lemma inserted_digitsAfterParen (s : jsstring) :
  insertedInto isSpaceOrTimes s (replace digitsAfterParen timesBetween s).
Proof.
  apply (replace_digitsAfterParen_ind (insertedInto isSpaceOrTimes)).
  - constructor.
  - intros c s' out _ IH. now constructor.
  - intros ws ds r out _ _ _ IH. constructor.
    apply inserted_prefix; [reflexivity|].
    apply inserted_app; [apply inserted_refl|].
    apply inserted_app; [apply inserted_refl|]. exact IH.
Qed.

Lemma preprocess_inserted (s : jsstring) :
  insertedInto isSpaceOrTimes (map normalizeChar s) (preprocessExpression s).
Proof.
  rewrite preprocess_passes.
  replace (map normalizeChar s)
    with (map (fun c => if N.eqb enDash c then chr "-" else c)
              (map normalizeBracket s)).
  2:{ rewrite map_map. apply map_ext. intros c.
      unfold normalizeChar, normalizeBracket, isChar.
      destruct (N.eqb_spec enDash c) as [<-|Hne]; [reflexivity|].
      destruct (N.eqb_spec c (chr "{")) as [->|H1]; [reflexivity|].
      destruct (N.eqb_spec c (chr "[")) as [->|H2]; [reflexivity|].
      destruct (N.eqb_spec c (chr "}")) as [->|H3]; [reflexivity|].
      destruct (N.eqb_spec c (chr "]")) as [->|H4]; [reflexivity|].
      cbn [orb]. destruct (N.eqb_spec enDash c); [contradiction|reflexivity]. }
  apply inserted_map.
  - intros c Hc. unfold isSpaceOrTimes, isChar in Hc.
    apply orb_prop in Hc. destruct Hc as [Hc|Hc];
      apply N.eqb_eq in Hc; subst; reflexivity.
  - eapply inserted_trans.
    + apply inserted_digitsBeforeParen.
    + apply inserted_digitsAfterParen.
Qed.

(** ** The two operator rules as equations *)

Lemma span_run_head (p : char -> bool) (a b : jsstring) :
  forallb p a = true ->
  match b with c :: _ => p c = false | [] => True end ->
  span p (a ++ b) = (a, b).
Proof.
  intros Ha Hb. induction a as [|x a IH]; cbn [app].
  - destruct b as [|c b]; [reflexivity|]. simpl. now rewrite Hb.
  - simpl in Ha. apply andb_prop in Ha. destruct Ha as [Hx Ha].
    simpl. now rewrite Hx, (IH Ha).
Qed.

Lemma digitsBeforeParen_equation (ds ws r : jsstring) :
  ds <> [] -> forallb isDigit ds = true -> forallb isWhiteSpace ws = true ->
  replace digitsBeforeParen timesBetween (ds ++ ws ++ chr "(" :: r)
  = ds ++ lit " * " ++ ws ++ chr "("
       :: replace digitsBeforeParen timesBetween r.
Proof.
  intros Hne Hds Hws. rewrite replace_digitsBeforeParen.
  unfold scanDigitsBeforeParen.
  rewrite (span_run_head isDigit ds (ws ++ chr "(" :: r) Hds).
  2:{ destruct ws as [|w ws]; [reflexivity|].
      simpl in Hws. apply andb_prop in Hws.
      apply space_not_digit, Hws. }
  rewrite (span_run isWhiteSpace ws (chr "(") r Hws eq_refl).
  destruct ds as [|d ds]; [contradiction|].
  change (isChar "(" (chr "(")) with true. cbv iota.
  rewrite substitute_timesBetween. cbn [rest].
  now rewrite <- !app_assoc.
Qed.

Lemma digitsAfterParen_equation (ws ds r : jsstring) :
  ds <> [] -> forallb isDigit ds = true -> forallb isWhiteSpace ws = true ->
  match r with c :: _ => isDigit c = false | [] => True end ->
  replace digitsAfterParen timesBetween (chr ")" :: ws ++ ds ++ r)
  = chr ")" :: lit " * " ++ ws ++ ds
       ++ replace digitsAfterParen timesBetween r.
Proof.
  intros Hne Hds Hws Hr. rewrite replace_digitsAfterParen.
  unfold scanDigitsAfterParen.
  change (isChar ")" (chr ")")) with true. cbv iota.
  rewrite (span_run_head isWhiteSpace ws (ds ++ r) Hws).
  2:{ destruct ds as [|d ds]; [contradiction|].
      simpl in Hds. apply andb_prop in Hds.
      apply digit_not_space, Hds. }
  rewrite (span_run_head isDigit ds r Hds Hr).
  destruct ds as [|d ds]; [contradiction|].
  rewrite substitute_timesBetween. cbn [rest app].
  now rewrite <- !app_assoc.
Qed.

Lemma inserted_length (q : char -> bool) (s t : jsstring) :
  insertedInto q s t -> (List.length s <= List.length t)%nat.
Proof. induction 1; simpl; lia. Qed.

Lemma characterwise_normalizeChar (c : char) :
  (if N.eqb enDash (normalizeBracket c) then chr "-" else normalizeBracket c)
  = normalizeChar c.
Proof.
  unfold normalizeChar, normalizeBracket, isChar.
  destruct (N.eqb_spec enDash c) as [<-|Hne]; [reflexivity|].
  destruct (N.eqb_spec c (chr "{")) as [->|H1]; [reflexivity|].
  destruct (N.eqb_spec c (chr "[")) as [->|H2]; [reflexivity|].
  destruct (N.eqb_spec c (chr "}")) as [->|H3]; [reflexivity|].
  destruct (N.eqb_spec c (chr "]")) as [->|H4]; [reflexivity|].
  cbn [orb]. destruct (N.eqb_spec enDash c); [contradiction|reflexivity].
Qed.

Lemma last_head {A : Type} (a d : A) (l : list A) :
  last (a :: l) d = last l a.
Proof.
  revert a d. induction l as [|b l IH]; intros a d; [reflexivity|].
  change (last (a :: b :: l) d) with (last (b :: l) d).
  now rewrite !IH.
Qed.

(** ** The page *)

Section PageFacts.

Context {V : Type} `{ToString V}.
Context {Svg : Type}.
Variable parse : jsstring -> Result (MathNode V).
Variable render : TreeNode -> Svg.

Lemma handleSubmit_tree (st : AppState) :
  tree (fst (handleSubmit parse st))
  = fst (parseExpression parse (preprocessExpression (expression st)))
  /\ snd (handleSubmit parse st)
     = snd (parseExpression parse (preprocessExpression (expression st))).
Proof.
  unfold handleSubmit.
  now destruct (parseExpression parse (preprocessExpression (expression st))).
Qed.

Lemma lastTree_from (texts : list jsstring) (acc : option TreeNode) :
  fold_left (fun acc text =>
               match fst (parseExpression parse (preprocessExpression text))
               with
               | Some t => Some t
               | None => acc
               end) texts acc
  = match lastTree parse texts with
    | Some t => Some t
    | None => acc
    end.
Proof.
  unfold lastTree. revert acc.
  induction texts as [|text texts IH]; intros acc; [reflexivity|].
  cbn [fold_left]. rewrite IH, (IH (match _ with Some t => Some t | None => None end)).
  destruct (fold_left _ texts None); [reflexivity|].
  now destruct (fst (parseExpression parse (preprocessExpression text))).
Qed.

Lemma session_spec (texts : list jsstring) :
  forall (p : Page) (shown : list Svg),
    container p = Some shown ->
    container (session parse render p texts)
    = Some match lastTree parse texts with
           | Some t => [render t]
           | None => shown
           end
    /\ tree (state (session parse render p texts))
       = last (map (fun text =>
                      fst (parseExpression parse (preprocessExpression text)))
                   texts)
              (tree (state p)).
Proof.
  induction texts as [|text texts IH]; intros p shown Hshown.
  - auto.
  - cbn [session]. unfold submitAndRender. cbn [state container].
    pose proof (handleSubmit_tree (setExpression text (state p))) as [Ht _].
    destruct (handleSubmit parse (setExpression text (state p)))
      as [st log]. cbn [fst] in Ht |- *. cbn [expression setExpression] in Ht.
    unfold lastTree. cbn [fold_left map]. rewrite lastTree_from.
    rewrite Hshown. fold (lastTree parse texts).
    destruct (fst (parseExpression parse (preprocessExpression text)))
      as [t|] eqn:Hres.
    + rewrite Ht. cbn [treeEffect].
      edestruct (IH (mkPage st (Some (drawTree render [] t)))) as [Hc Hs];
        [reflexivity|].
      rewrite Hc, Hs. cbn [state]. rewrite Ht. split.
      * now destruct (lastTree parse texts).
      * now rewrite last_head.
    + rewrite Ht. cbn [treeEffect].
      edestruct (IH (mkPage st (Some shown))) as [Hc Hs]; [reflexivity|].
      rewrite Hc, Hs. cbn [state]. rewrite Ht. split.
      * now destruct (lastTree parse texts).
      * now rewrite last_head.
Qed.

End PageFacts.

(** ** Further properties of the normalizer *)

(** X1. Whatever the text, what [preprocessExpression] yields is in normal
    form: it has no curly or square bracket and no en dash, no digit
    stands before an opening parenthesis and no closing parenthesis
    before a digit, white space between them or not. *)
Theorem normalizer_output_in_normal_form (s : jsstring) :
  forallb isPlain (preprocessExpression s) = true
  /\ noDigitBeforeParen (preprocessExpression s) = true
  /\ noDigitAfterParen (preprocessExpression s) = true.
Proof.
  pose proof (preprocess_isNormal s) as Hn. unfold isNormal in Hn.
  apply andb_prop in Hn. destruct Hn as [Hn Ha].
  apply andb_prop in Hn. destruct Hn as [Hp Hb]. auto.
Qed.

(** X2. [preprocessExpression] leaves a text as it is exactly when the
    text is in normal form. *)
Theorem normalizer_fixed_points (s : jsstring) :
  preprocessExpression s = s <-> isNormal s = true.
Proof. apply preprocess_fixed_iff. Qed.

Lemma normalizer_fixed_points_witness :
  isNormal (lit "2 * (3+4)") = true
  /\ preprocessExpression (lit "2 * (3+4)") = lit "2 * (3+4)".
Proof.
  split; [reflexivity|].
  apply (proj2 (normalizer_fixed_points (lit "2 * (3+4)"))). reflexivity.
Defined.

(** X3. Applied twice to any text, [preprocessExpression] yields what it
    yields applied once. *)
Theorem normalizer_idempotent (s : jsstring) :
  preprocessExpression (preprocessExpression s) = preprocessExpression s.
Proof. apply preprocess_fixed_iff, preprocess_isNormal. Qed.

(** X4. Where, the brackets unified, no digit stands before an opening
    parenthesis and no closing parenthesis before a digit,
    [preprocessExpression] only rewrites characters: each bracket to its
    parenthesis and the en dash to the minus sign, the length unchanged. *)
Theorem normalizer_characterwise (s : jsstring) :
  noDigitBeforeParen (map normalizeBracket s) = true ->
  noDigitAfterParen (map normalizeBracket s) = true ->
  preprocessExpression s = map normalizeChar s
  /\ List.length (preprocessExpression s) = List.length s.
Proof.
  intros Hb Ha.
  assert (Heq : preprocessExpression s = map normalizeChar s).
  { rewrite preprocess_passes.
    rewrite (digitsBeforeParen_fixed _ Hb), (digitsAfterParen_fixed _ Ha).
    rewrite map_map. apply map_ext. exact characterwise_normalizeChar. }
  split; [exact Heq|]. now rewrite Heq, length_map.
Qed.

Lemma normalizer_characterwise_witness :
  noDigitBeforeParen (map normalizeBracket (lit "[1+2]*{3+4}")) = true
  /\ noDigitAfterParen (map normalizeBracket (lit "[1+2]*{3+4}")) = true
  /\ preprocessExpression (lit "[1+2]*{3+4}")
     = map normalizeChar (lit "[1+2]*{3+4}")
  /\ List.length (preprocessExpression (lit "[1+2]*{3+4}"))
     = List.length (lit "[1+2]*{3+4}").
Proof.
  split; [reflexivity|]. split; [reflexivity|].
  apply (normalizer_characterwise (lit "[1+2]*{3+4}")); reflexivity.
Defined.

(** X5. [preprocessExpression] only writes into the text: what it yields
    is the text, its brackets and dashes rewritten, with spaces and
    asterisks put in; nothing is dropped or moved, and the result is
    never shorter. *)
Theorem normalizer_only_inserts (s : jsstring) :
  insertedInto isSpaceOrTimes (map normalizeChar s) (preprocessExpression s)
  /\ (List.length s <= List.length (preprocessExpression s))%nat.
Proof.
  pose proof (preprocess_inserted s) as Hins. split; [exact Hins|].
  apply inserted_length in Hins. now rewrite length_map in Hins.
Qed.

(** X6. Rule 3 writes [" * "] right behind a digit run that stands before
    an opening parenthesis and keeps the white space between them behind
    the operator; rule 4 writes it right behind a closing parenthesis
    that stands before a digit run, before the white space. *)
Theorem operator_rules_equations (ds ws r : jsstring) :
  ds <> [] -> forallb isDigit ds = true -> forallb isWhiteSpace ws = true ->
  replace digitsBeforeParen timesBetween (ds ++ ws ++ chr "(" :: r)
  = ds ++ lit " * " ++ ws ++ chr "("
       :: replace digitsBeforeParen timesBetween r
  /\ (match r with c :: _ => isDigit c = false | [] => True end ->
      replace digitsAfterParen timesBetween (chr ")" :: ws ++ ds ++ r)
      = chr ")" :: lit " * " ++ ws ++ ds
           ++ replace digitsAfterParen timesBetween r).
Proof.
  intros Hne Hds Hws. split.
  - now apply digitsBeforeParen_equation.
  - intros Hr. now apply digitsAfterParen_equation.
Qed.

Lemma operator_rules_equations_witness :
  lit "12" <> []
  /\ forallb isDigit (lit "12") = true
  /\ forallb isWhiteSpace (lit "  ") = true
  /\ replace digitsBeforeParen timesBetween
             (lit "12" ++ lit "  " ++ chr "(" :: lit "+1")
     = lit "12" ++ lit " * " ++ lit "  " ++ chr "("
         :: replace digitsBeforeParen timesBetween (lit "+1")
  /\ replace digitsAfterParen timesBetween
             (chr ")" :: lit "  " ++ lit "12" ++ lit "+1")
     = chr ")" :: lit " * " ++ lit "  " ++ lit "12"
         ++ replace digitsAfterParen timesBetween (lit "+1").
Proof.
  split; [discriminate|]. split; [reflexivity|]. split; [reflexivity|].
  destruct (operator_rules_equations (lit "12") (lit "  ") (lit "+1"))
    as [H3 H4]; [discriminate | reflexivity | reflexivity |].
  split; [exact H3|]. apply H4. reflexivity.
Defined.

(** ** Further properties of the tree converter *)

(** X7. The flag passed to [convertToTree] only marks: with any two flags
    the conversions throw the same, or return trees with the same values
    and shape; and so does the conversion of a node wrapped in a
    grouping node. *)
Theorem converter_flag_only_marks {V : Type} `{ToString V}
        (node : MathNode V) (flag flag' : bool) :
  mapResult eraseFlags (convertToTree node flag)
  = mapResult eraseFlags (convertToTree node flag')
  /\ mapResult eraseFlags (convertToTree (ParenthesisNode (Some node)) flag)
     = mapResult eraseFlags (convertToTree node flag).
Proof.
  split; [apply convert_eraseFlags|].
  cbn [convertToTree]. apply convert_eraseFlags.
Qed.

(** X8. The values of a produced tree, root first and left before right,
    are the operator symbols and the constants' texts of the nodes
    visited, in the order of the visits. *)
Theorem converter_values_in_order {V : Type} `{ToString V}
        (node : MathNode V) (flag : bool) (t : TreeNode) :
  convertToTree node flag = Return t ->
  map value (nodes t) = labels (visits node).
Proof. apply convert_labels. Qed.

Lemma converter_values_in_order_witness :
  convertToTree scenario2Node false = Return scenario2Tree
  /\ map value (nodes scenario2Tree) = labels (visits scenario2Node).
Proof.
  split; [reflexivity|].
  apply (converter_values_in_order scenario2Node false scenario2Tree).
  reflexivity.
Defined.

(** X9. The root of a produced tree is flagged exactly when the flag was
    passed or the node is a grouping node.  With the flag passed every
    node of the tree is flagged; without it, some node is flagged
    exactly when a grouping node was visited. *)
Theorem converter_flags {V : Type} `{ToString V}
        (node : MathNode V) (flag : bool) (t : TreeNode) :
  convertToTree node flag = Return t ->
  isSubExpression t = flag || isGrouping (VNode node)
  /\ (flag = true -> forallb isSubExpression (nodes t) = true)
  /\ (flag = false ->
      existsb isSubExpression (nodes t) = existsb isGrouping (visits node)).
Proof.
  intros Ht. split; [now apply convert_root_flag|]. split.
  - intros ->. now apply (convert_true_all node).
  - intros ->. now apply convert_false_flags.
Qed.

Lemma converter_flags_witness :
  convertToTree scenario2Node false = Return scenario2Tree
  /\ isSubExpression scenario2Tree = false || isGrouping (VNode scenario2Node)
  /\ existsb isSubExpression (nodes scenario2Tree)
     = existsb isGrouping (visits scenario2Node).
Proof.
  split; [reflexivity|].
  assert (Ht : convertToTree scenario2Node false = Return scenario2Tree)
    by reflexivity.
  destruct (converter_flags scenario2Node false scenario2Tree Ht)
    as (Hroot & _ & Hsome).
  split; [exact Hroot|]. now apply Hsome.
Defined.

(** X10. [convertToTree] returns a tree exactly when none of its calls
    fails; it throws a TypeError exactly when the first call that fails
    is on [undefined] (a missing operand or content) or on a constant
    whose value has no [toString]. *)
Theorem converter_returns_iff {V : Type} `{ToString V}
        (node : MathNode V) (flag : bool) :
  ((exists t, convertToTree node flag = Return t)
   <-> firstFailure (visits node) = None)
  /\ (convertToTree node flag = Throw TypeError
      <-> exists v,
            firstFailure (visits node) = Some v
            /\ (v = VUndefined
                \/ exists c, v = VNode (ConstantNode c)
                             /\ toString c = None)).
Proof.
  pose proof (convert_spec node flag) as Hspec. split; split.
  - intros (t & Ht). rewrite Ht in Hspec. now destruct Hspec.
  - intros Hnone. destruct (convertToTree node flag) as [t|e]; [eauto|].
    destruct Hspec as (v & Hv & _). congruence.
  - intros Hthrow. rewrite Hthrow in Hspec.
    destruct Hspec as (v & Hv & Hat). exists v. split; [exact Hv|].
    destruct v as [[op args|c|content|k]|]; simpl in Hat;
      try discriminate; [|now left].
    right. exists c. split; [reflexivity|].
    now destruct (toString c).
  - intros (v & Hv & Hkind). rewrite Hv in Hspec.
    destruct (convertToTree node flag) as [t|e].
    + destruct Hspec as [Hnone _]. discriminate.
    + destruct Hspec as (v' & [= <-] & Hat). f_equal.
      destruct Hkind as [->|(c & -> & Hc)]; simpl in Hat.
      * congruence.
      * rewrite Hc in Hat. congruence.
Qed.

Lemma converter_returns_iff_witness :
  firstFailure (visits scenario2Node) = None
  /\ exists t, convertToTree scenario2Node false = Return t.
Proof.
  split; [reflexivity|].
  apply (proj2 (proj1 (converter_returns_iff scenario2Node false))).
  reflexivity.
Defined.

(** X11. In a produced tree the accessor of [drawTree] gives every node
    no child or two; the nodes are one more than twice the nodes with
    children, and one more than the parent-child pairs. *)
Theorem converter_full_binary {V : Type} `{ToString V}
        (node : MathNode V) (flag : bool) (t : TreeNode) :
  convertToTree node flag = Return t ->
  (forall x, In x (nodes t) ->
             List.length (childrenOf x) = 0%nat
             \/ List.length (childrenOf x) = 2%nat)
  /\ List.length (nodes t)
     = (2 * List.length (filter hasChildren (nodes t)) + 1)%nat
  /\ List.length (nodes t)
     = S (List.length (flat_map childrenOf (nodes t))).
Proof.
  intros Ht. destruct (convert_full_binary node flag t Ht) as (Hc & Hn & Hl).
  split; [|auto].
  intros x Hx. apply (proj1 (forallb_forall _ _) Hc) in Hx.
  apply orb_prop in Hx. destruct Hx as [Hx|Hx];
    apply Nat.eqb_eq in Hx; auto.
Qed.

Lemma converter_full_binary_witness :
  convertToTree scenario2Node false = Return scenario2Tree
  /\ List.length (nodes scenario2Tree)
     = (2 * List.length (filter hasChildren (nodes scenario2Tree)) + 1)%nat.
Proof.
  split; [reflexivity|].
  apply (converter_full_binary scenario2Node false scenario2Tree).
  reflexivity.
Defined.

(** ** Further properties of the page *)

(** X12. A submission of the normalized text yields the tree and the
    diagnostics that a submission of the text itself yields, whatever
    tree was there before. *)
Theorem submit_normalized_text {V : Type} `{ToString V}
        (parse : jsstring -> Result (MathNode V))
        (text : jsstring) (previous previous' : option TreeNode) :
  tree (fst (handleSubmit parse
                          (mkAppState (preprocessExpression text) previous)))
  = tree (fst (handleSubmit parse (mkAppState text previous')))
  /\ snd (handleSubmit parse
                       (mkAppState (preprocessExpression text) previous))
     = snd (handleSubmit parse (mkAppState text previous')).
Proof.
  destruct (handleSubmit_tree parse
              (mkAppState (preprocessExpression text) previous)) as [-> ->].
  destruct (handleSubmit_tree parse (mkAppState text previous')) as [-> ->].
  cbn [expression].
  assert (Hidem : preprocessExpression (preprocessExpression text)
                  = preprocessExpression text)
    by apply preprocess_fixed_iff, preprocess_isNormal.
  now rewrite Hidem.
Qed.

(** X13. After any texts typed and submitted one after the other, the
    container holds the drawing of the last text that yielded a tree, and
    only that (what it held at first, if none did); the [tree] state is
    the outcome of the last text, so after a failed submission the state
    is [null] while the earlier drawing stays. *)
Theorem session_container {V : Type} `{ToString V} {Svg : Type}
        (parse : jsstring -> Result (MathNode V))
        (render : TreeNode -> Svg)
        (p : Page) (shown : list Svg) (texts : list jsstring) :
  container p = Some shown ->
  container (session parse render p texts)
  = Some match lastTree parse texts with
         | Some t => [render t]
         | None => shown
         end
  /\ tree (state (session parse render p texts))
     = last (map (fun text =>
                    fst (parseExpression parse (preprocessExpression text)))
                 texts)
            (tree (state p)).
Proof. apply session_spec. Qed.

Lemma session_container_witness :
  container (mkPage (mkAppState [] None) (Some ([] : list TreeNode)))
  = Some []
  /\ container (session Reference.parse (fun t => t)
                        (mkPage (mkAppState [] None) (Some []))
                        [lit "2(3+4)"; lit "(2+"])
     = Some [scenario2Tree]
  /\ tree (state (session Reference.parse (fun t => t)
                          (mkPage (mkAppState [] None) (Some []))
                          [lit "2(3+4)"; lit "(2+"]))
     = None.
Proof.
  split; [reflexivity|].
  exact (session_container Reference.parse (fun t => t)
           (mkPage (mkAppState [] None) (Some [])) []
           [lit "2(3+4)"; lit "(2+"] eq_refl).
Defined.
